(** * lscsi.c: the sp_ SCSI pass thru over Linux SG_IO

    A shallow embedding of [lscsi.c] and the properties of its exit int.

    C [int] is 32 bits wide and is modelled as [Z] with the wrap-around
    written out; [unsigned char] and [unsigned int] fields hold their value
    reduced modulo 2^8 and 2^32.  A call that reaches [exit] yields
    [Exited]; a read outside the sense bytes yields [Undefined]. *)

From Stdlib Require Import ZArith List Bool Lia Ascii.
From ExtLib Require Import Structures.Monad.
Import ListNotations.
Import MonadNotation.
Local Open Scope Z_scope.
Local Open Scope monad_scope.

(** ** C integers *)

Definition int_range (z : Z) : Prop := - 2 ^ 31 <= z < 2 ^ 31.

(** Conversion to [int], [unsigned int] and [unsigned char]. *)
Definition sint32 (z : Z) : Z := (z + 2 ^ 31) mod 2 ^ 32 - 2 ^ 31.
Definition uint32 (z : Z) : Z := z mod 2 ^ 32.
Definition uint8 (z : Z) : Z := z mod 2 ^ 8.

(** [int] arithmetic: the mathematical result, wrapped. *)
Definition int_add (a b : Z) : Z := sint32 (a + b).
Definition int_mul (a b : Z) : Z := sint32 (a * b).
Definition int_neg (a : Z) : Z := sint32 (- a).
(** [/] on [int] truncates toward zero. *)
Definition int_div (a b : Z) : Z := sint32 (Z.quot a b).

(** [unsigned int] arithmetic. *)
Definition uint_mul (a b : Z) : Z := uint32 (a * b).
Definition uint_rem (a b : Z) : Z := Z.rem a b.

(** ** Constants of the headers

    [lscsi.c] includes "xscsi.h" for the bits of the exit int and
    <scsi/sg.h> for the SG_IO interface.  Neither header comes with
    [lscsi.c], so their constants are parameters of the development; each
    stands for the value of the macro as an [int]. *)

Class xscsi_h : Type := {
  SP_THRU : Z;        (* thru failed, or sense unintelligible *)
  SP_DATA_THRU : Z;   (* data not counted *)
  SP_SENSE_THRU : Z;  (* sense not counted *)
  SP_RESIDUE : Z;     (* nonzero residue beside sense *)
  SP_SENSE : Z;       (* intelligible sense *)
  SP_DEFERRED : Z;    (* sense other than x70 Current *)
  SP_SK : Z;          (* mask of the Sense Key *)
  SP_ASC : Z;         (* mask of the Additional Sense Code *)
  SP_ASCQ : Z         (* mask of the Additional Sense Code Qualifier *)
}.

Class sg_h : Type := {
  SG_DXFER_NONE : Z;
  SG_DXFER_TO_DEV : Z;
  SG_DXFER_FROM_DEV : Z;
  SG_INFO_OK_MASK : Z;
  SG_INFO_OK : Z
}.

(** The values of <scsi/sg.h> on Linux. *)
Definition linux_sg_h : sg_h := {|
  SG_DXFER_NONE := -1;
  SG_DXFER_TO_DEV := -2;
  SG_DXFER_FROM_DEV := -3;
  SG_INFO_OK_MASK := 1;
  SG_INFO_OK := 0
|}.

Definition USUAL_SENSE : Z := 0x12.
Definition USUAL_SECONDS : Z := 28 * 60 * 60.

(** ** Outcomes of a call *)

Inductive outcome (A : Type) : Type :=
| Ret (a : A)
| Exited (status : Z)
| Undefined.

Arguments Ret {A} a.
Arguments Exited {A} status.
Arguments Undefined {A}.

#[export] Instance Monad_outcome : Monad outcome := {|
  ret := fun _ a => Ret a;
  bind := fun _ _ c k =>
    match c with
    | Ret a => k a
    | Exited status => Exited status
    | Undefined => Undefined
    end
|}.

(** [exits] and [exite] print why and leave through [exit(-line)]. *)
Definition exits {A : Type} (line : Z) : outcome A := Exited (- line).

(** ** The data model *)

(** The pointers the code handles: it stores and returns them, and only
    [int_from_sense] reads through one. *)
Inductive ptr : Type :=
| NULL
| own_sense          (* &sp->sense[0] *)
| caller (b : nat).  (* a buffer of the caller *)

(** [sg_io_hdr_t] of <scsi/sg.h>, field by field. *)
Record sg_io_hdr_t : Type := {
  interface_id : Z;      (* int *)
  dxfer_direction : Z;   (* int *)
  cmd_len : Z;           (* unsigned char *)
  mx_sb_len : Z;         (* unsigned char *)
  iovec_count : Z;       (* unsigned short *)
  dxfer_len : Z;         (* unsigned int *)
  dxferp : ptr;
  cmdp : ptr;
  sbp : ptr;
  timeout : Z;           (* unsigned int *)
  flags : Z;             (* unsigned int *)
  pack_id : Z;           (* int *)
  usr_ptr : ptr;
  status : Z;            (* unsigned char *)
  masked_status : Z;     (* unsigned char *)
  msg_status : Z;        (* unsigned char *)
  sb_len_wr : Z;         (* unsigned char *)
  host_status : Z;       (* unsigned short *)
  driver_status : Z;     (* unsigned short *)
  resid : Z;             (* int *)
  duration : Z;          (* unsigned int *)
  info : Z               (* unsigned int *)
}.

Record struct_sp : Type := {
  sih : sg_io_hdr_t;
  fd : Z;
  sense : list Z         (* char sense[16384] *)
}.

(** [memset(sih, '\0', sizeof *sih)]. *)
Definition sih_zeroed : sg_io_hdr_t := {|
  interface_id := 0; dxfer_direction := 0; cmd_len := 0; mx_sb_len := 0;
  iovec_count := 0; dxfer_len := 0; dxferp := NULL; cmdp := NULL;
  sbp := NULL; timeout := 0; flags := 0; pack_id := 0; usr_ptr := NULL;
  status := 0; masked_status := 0; msg_status := 0; sb_len_wr := 0;
  host_status := 0; driver_status := 0; resid := 0; duration := 0;
  info := 0
|}.

(** Assignments to the fields the code writes. *)
Definition set_interface_id (v : Z) (h : sg_io_hdr_t) : sg_io_hdr_t := {|
  interface_id := v; dxfer_direction := dxfer_direction h;
  cmd_len := cmd_len h; mx_sb_len := mx_sb_len h;
  iovec_count := iovec_count h; dxfer_len := dxfer_len h;
  dxferp := dxferp h; cmdp := cmdp h; sbp := sbp h; timeout := timeout h;
  flags := flags h; pack_id := pack_id h; usr_ptr := usr_ptr h;
  status := status h; masked_status := masked_status h;
  msg_status := msg_status h; sb_len_wr := sb_len_wr h;
  host_status := host_status h; driver_status := driver_status h;
  resid := resid h; duration := duration h; info := info h
|}.

Definition set_dxfer_direction (v : Z) (h : sg_io_hdr_t) : sg_io_hdr_t := {|
  interface_id := interface_id h; dxfer_direction := v;
  cmd_len := cmd_len h; mx_sb_len := mx_sb_len h;
  iovec_count := iovec_count h; dxfer_len := dxfer_len h;
  dxferp := dxferp h; cmdp := cmdp h; sbp := sbp h; timeout := timeout h;
  flags := flags h; pack_id := pack_id h; usr_ptr := usr_ptr h;
  status := status h; masked_status := masked_status h;
  msg_status := msg_status h; sb_len_wr := sb_len_wr h;
  host_status := host_status h; driver_status := driver_status h;
  resid := resid h; duration := duration h; info := info h
|}.

Definition set_cmd (len : Z) (p : ptr) (h : sg_io_hdr_t) : sg_io_hdr_t := {|
  interface_id := interface_id h; dxfer_direction := dxfer_direction h;
  cmd_len := len; mx_sb_len := mx_sb_len h;
  iovec_count := iovec_count h; dxfer_len := dxfer_len h;
  dxferp := dxferp h; cmdp := p; sbp := sbp h; timeout := timeout h;
  flags := flags h; pack_id := pack_id h; usr_ptr := usr_ptr h;
  status := status h; masked_status := masked_status h;
  msg_status := msg_status h; sb_len_wr := sb_len_wr h;
  host_status := host_status h; driver_status := driver_status h;
  resid := resid h; duration := duration h; info := info h
|}.

Definition set_dxfer (len : Z) (p : ptr) (h : sg_io_hdr_t) : sg_io_hdr_t := {|
  interface_id := interface_id h; dxfer_direction := dxfer_direction h;
  cmd_len := cmd_len h; mx_sb_len := mx_sb_len h;
  iovec_count := iovec_count h; dxfer_len := len;
  dxferp := p; cmdp := cmdp h; sbp := sbp h; timeout := timeout h;
  flags := flags h; pack_id := pack_id h; usr_ptr := usr_ptr h;
  status := status h; masked_status := masked_status h;
  msg_status := msg_status h; sb_len_wr := sb_len_wr h;
  host_status := host_status h; driver_status := driver_status h;
  resid := resid h; duration := duration h; info := info h
|}.

Definition set_sb (len : Z) (p : ptr) (h : sg_io_hdr_t) : sg_io_hdr_t := {|
  interface_id := interface_id h; dxfer_direction := dxfer_direction h;
  cmd_len := cmd_len h; mx_sb_len := len;
  iovec_count := iovec_count h; dxfer_len := dxfer_len h;
  dxferp := dxferp h; cmdp := cmdp h; sbp := p; timeout := timeout h;
  flags := flags h; pack_id := pack_id h; usr_ptr := usr_ptr h;
  status := status h; masked_status := masked_status h;
  msg_status := msg_status h; sb_len_wr := sb_len_wr h;
  host_status := host_status h; driver_status := driver_status h;
  resid := resid h; duration := duration h; info := info h
|}.

Definition set_timeout (v : Z) (h : sg_io_hdr_t) : sg_io_hdr_t := {|
  interface_id := interface_id h; dxfer_direction := dxfer_direction h;
  cmd_len := cmd_len h; mx_sb_len := mx_sb_len h;
  iovec_count := iovec_count h; dxfer_len := dxfer_len h;
  dxferp := dxferp h; cmdp := cmdp h; sbp := sbp h; timeout := v;
  flags := flags h; pack_id := pack_id h; usr_ptr := usr_ptr h;
  status := status h; masked_status := masked_status h;
  msg_status := msg_status h; sb_len_wr := sb_len_wr h;
  host_status := host_status h; driver_status := driver_status h;
  resid := resid h; duration := duration h; info := info h
|}.

(** Assignment through [sih = &sp->sih]. *)
Definition with_sih (f : sg_io_hdr_t -> sg_io_hdr_t) (sp : struct_sp)
  : struct_sp :=
  {| sih := f (sih sp); fd := fd sp; sense := sense sp |}.

(** ** Request configuration *)

(** [char * sp_cdb(struct sp * sp, char * cdb, int max)] *)
Definition sp_cdb (sp : struct_sp) (cdb : ptr) (max : Z)
  : outcome (struct_sp * ptr) :=
  let uch := uint8 max in
  if negb (uch =? max) then exits 131
  else
    let sp := with_sih (set_cmd uch cdb) sp in
    ret (sp, cmdp (sih sp)).

(** [char * sp_data(struct sp * sp, char * data, int max)] *)
Definition sp_data (sp : struct_sp) (data : ptr) (max : Z)
  : struct_sp * ptr :=
  let sp := with_sih (set_dxfer (uint32 max) data) sp in
  (sp, dxferp (sih sp)).

(** [char * sp_sense(struct sp * sp, char * sense, int max)] *)
Definition sp_sense (sp : struct_sp) (sense : ptr) (max : Z)
  : outcome (struct_sp * ptr) :=
  let uch := uint8 max in
  if negb (uch =? max) then exits 153
  else
    let sp := with_sih (set_sb uch sense) sp in
    ret (sp, sbp (sih sp)).

(** [int sp_late(struct sp * sp, int s, int ns)] *)
Definition sp_late (sp : struct_sp) (s ns : Z) : outcome (struct_sp * Z) :=
  let ms :=
    int_add (int_mul s 1000)
            (int_div (int_div (int_add ns 999999) 1000) 1000) in
  if negb (int_div ms 1000 =? s) then exits 165
  else
    let sp := with_sih (set_timeout (uint32 ms)) sp in
    ret (sp,
         sint32 (uint_mul (uint_mul (uint_rem (timeout (sih sp)) 1000) 1000)
                          1000)).

(** [void sp_zero(struct sp * sp)] *)
Definition sp_zero `{sg_h} (sp : struct_sp) : outcome struct_sp :=
  let sp := with_sih (fun _ => sih_zeroed) sp in
  let sp := with_sih (set_interface_id (Z.of_N (N_of_ascii "S"))) sp in
  let sp := with_sih (set_dxfer_direction SG_DXFER_NONE) sp in
  '(sp, _) <- sp_sense sp own_sense USUAL_SENSE ;;
  '(sp, _) <- sp_late sp USUAL_SECONDS 0 ;;
  ret sp.

(** ** The sense decoder *)

(** [static int lsb(int mask)]: zero all but the least significant set bit. *)
Definition lsb (mask : Z) : Z := Z.land mask (int_neg mask).

(** Reads of [chars[i]].  A computation over the sense bytes yields its
    value, or nothing once an index lies outside the bytes, together with
    the indices it asked for, in order. *)
Definition reader (A : Type) : Type := list Z -> option A * list Z.

#[export] Instance Monad_reader : Monad reader := {|
  ret := fun _ a _ => (Some a, []);
  bind := fun _ _ c k chars =>
    match c chars with
    | (Some a, asked) =>
        let '(r, asked') := k a chars in (r, asked ++ asked')
    | (None, asked) => (None, asked)
    end
|}.

(** [chars[i]], promoted to [int].  Every use below masks the value with
    at most xFF, so the signedness of [char] does not show. *)
Definition char_at (i : Z) : reader Z :=
  fun chars =>
    ((if 0 <=? i then nth_error chars (Z.to_nat i) else None), [i]).

(** [static int int_from_sense(char const * chars, int length)] *)
Definition int_from_sense `{xscsi_h} (length : Z) : reader Z :=
  let exit_int := SP_THRU in
  if 2 <? length then
    c2 <- char_at 2 ;;
    let sk := Z.land c2 0x0F in
    c0 <- char_at 0 ;;
    let response_code := Z.land c0 0x7F in
    if (response_code =? 0x70) || (response_code =? 0x71) then
      let exit_int := Z.lor exit_int SP_SENSE in
      let exit_int :=
        if negb (response_code =? 0x70) then Z.lor exit_int SP_DEFERRED
        else exit_int in
      let exit_int := Z.lor exit_int (int_mul sk (lsb SP_SK)) in
      length <-
        (if 7 <? length then
           c7 <- char_at 7 ;;
           let al := Z.land c7 0xFF in
           if negb (al =? 0x00) then
             let max := int_add (int_add 7 1) al in
             if max <? length then ret max else ret length
           else ret length
         else ret length) ;;
      exit_int <-
        (if 0xC <? length then
           cC <- char_at 0xC ;;
           let asc := Z.land cC 0xFF in
           ret (Z.lor exit_int (int_mul asc (lsb SP_ASC)))
         else ret exit_int) ;;
      exit_int <-
        (if 0xD <? length then
           cD <- char_at 0xD ;;
           let ascq := Z.land cD 0xFF in
           ret (Z.lor exit_int (int_mul ascq (lsb SP_ASCQ)))
         else ret exit_int) ;;
      ret exit_int
    else ret exit_int
  else ret exit_int.

(** The exit int of a decoding, and the indices it read. *)
Definition decoded `{xscsi_h} (chars : list Z) (length : Z) : option Z :=
  fst (int_from_sense length chars).

Definition indices_read `{xscsi_h} (chars : list Z) (length : Z) : list Z :=
  snd (int_from_sense length chars).

(** ** Pass thru *)

(** What the calls work on: the [struct sp] and the buffers of the caller. *)
Record machine : Type := {
  the_sp : struct_sp;
  buffers : nat -> list Z
}.

Definition with_sp (f : struct_sp -> struct_sp) (m : machine) : machine :=
  {| the_sp := f (the_sp m); buffers := buffers m |}.

(** The bytes a pointer leads to. *)
Definition bytes_at (m : machine) (p : ptr) : list Z :=
  match p with
  | NULL => []
  | own_sense => sense (the_sp m)
  | caller b => buffers m b
  end.

(** [ioctl(fd, SG_IO, sih)]: the driver returns an int and leaves what it
    pleases in the header and in the buffers. *)
Class sg_driver : Type := {
  ioctl_SG_IO : Z -> machine -> Z * machine
}.

(** [int sp_speak(struct sp * sp)] *)
Definition sp_speak `{xscsi_h} `{sg_h} `{sg_driver} (m : machine)
  : outcome (Z * machine) :=
  let fd := fd (the_sp m) in
  let max := sint32 (dxfer_len (sih (the_sp m))) in
  let sense_chars := sbp (sih (the_sp m)) in
  let sense_max := mx_sb_len (sih (the_sp m)) in
  let '(i, m) := ioctl_SG_IO fd m in
  let residue := resid (sih (the_sp m)) in
  let sense_enough := sb_len_wr (sih (the_sp m)) in
  let exit_int := residue in
  if i <? 0 then
    ret (SP_THRU, m)
  else if (residue <? 0) || (max <? residue) then
    let exit_int := SP_THRU in
    ret (Z.lor exit_int SP_DATA_THRU, m)
  else if negb (Z.land (info (sih (the_sp m))) SG_INFO_OK_MASK =? SG_INFO_OK)
  then
    if (sense_enough <? 0) || (sense_max <? sense_enough) then
      let exit_int := SP_THRU in
      ret (Z.lor exit_int SP_SENSE_THRU, m)
    else
      let exit_int := SP_THRU in
      match decoded (bytes_at m sense_chars) sense_enough with
      | None => Undefined
      | Some from_sense =>
          let exit_int := Z.lor exit_int from_sense in
          let exit_int :=
            if negb (0 =? residue) then Z.lor exit_int SP_RESIDUE
            else exit_int in
          ret (exit_int, m)
      end
  else ret (exit_int, m).

(** [int sp_read(struct sp * sp, char * to, int max)] *)
Definition sp_read `{xscsi_h} `{sg_h} `{sg_driver}
    (m : machine) (to : ptr) (max : Z) : outcome (Z * machine) :=
  let m := with_sp (fun sp => fst (sp_data sp to max)) m in
  let m := with_sp (with_sih (set_dxfer_direction SG_DXFER_FROM_DEV)) m in
  sp_speak m.

(** [int sp_write(struct sp * sp, char const * from, int max)] *)
Definition sp_write `{xscsi_h} `{sg_h} `{sg_driver}
    (m : machine) (from : ptr) (max : Z) : outcome (Z * machine) :=
  let m := with_sp (fun sp => fst (sp_data sp from max)) m in
  let m := with_sp (with_sih (set_dxfer_direction SG_DXFER_TO_DEV)) m in
  sp_speak m.

(** [int sp_data_enough(struct sp * sp)] *)
Definition sp_data_enough (sp : struct_sp) : Z :=
  sint32 (uint32 (dxfer_len (sih sp) - resid (sih sp))).

(** [int sp_sense_enough(struct sp * sp)] *)
Definition sp_sense_enough (sp : struct_sp) : Z := sb_len_wr (sih sp).

(** * Vocabulary of the properties *)

(** ** Time out *)

(** The quotient rounded up. *)
Definition ceil_div (a b : Z) : Z := - ((- a) / b).

(** ** Reset *)

(** The request [sp_zero] leaves: zero but for the tag, the direction, the
    usual sense buffer and the usual time out. *)
Definition sih_fresh `{sg_h} : sg_io_hdr_t :=
  set_timeout (USUAL_SECONDS * 1000)
    (set_sb USUAL_SENSE own_sense
       (set_dxfer_direction SG_DXFER_NONE
          (set_interface_id (Z.of_N (N_of_ascii "S")) sih_zeroed))).

(** ** Transfers *)

(** The two transfers, [sp_read] from the device and [sp_write] to it. *)
Inductive direction : Type := from_dev | to_dev.

Definition transfer `{xscsi_h} `{sg_h} `{sg_driver} (d : direction)
  : machine -> ptr -> Z -> outcome (Z * machine) :=
  match d with
  | from_dev => sp_read
  | to_dev => sp_write
  end.

Definition sg_dxfer `{sg_h} (d : direction) : Z :=
  match d with
  | from_dev => SG_DXFER_FROM_DEV
  | to_dev => SG_DXFER_TO_DEV
  end.

(** The machine as a transfer hands it to the driver. *)
Definition spoken `{sg_h} (d : direction) (m : machine) (p : ptr) (max : Z)
  : machine :=
  with_sp (with_sih (set_dxfer_direction (sg_dxfer d)))
    (with_sp (with_sih (set_dxfer (uint32 max) p)) m).

(** ** Sense bytes *)

Definition byte_of (chars : list Z) (i : Z) : Z := nth (Z.to_nat i) chars 0.

Definition response_code (chars : list Z) : Z :=
  Z.land (byte_of chars 0) 0x7F.

Definition sense_key (chars : list Z) : Z := Z.land (byte_of chars 2) 0x0F.

Definition additional_length (chars : list Z) : Z :=
  Z.land (byte_of chars 7) 0xFF.

(** Sense the decoder cannot read: too short, or neither x70 nor x71. *)
Definition unintelligible (chars : list Z) (length : Z) : Prop :=
  length <= 2
  \/ (length <= Z.of_nat (List.length chars)
      /\ response_code chars <> 0x70 /\ response_code chars <> 0x71).

Definition intelligible (chars : list Z) (length : Z) : bool :=
  (2 <? length)
  && ((response_code chars =? 0x70) || (response_code chars =? 0x71)).

(** The valid length after the additional length of byte 7 had its say:
    past 7 bytes and with a nonzero additional length [al], the lesser of
    the length and [8 + al]. *)
Definition effective_length (chars : list Z) (length : Z) : Z :=
  if (7 <? length) && negb (additional_length chars =? 0)
  then Z.min length (8 + additional_length chars)
  else length.

(** The exit int of intelligible sense, part by part. *)
Definition sense_bits `{xscsi_h} (chars : list Z) (length : Z) : Z :=
  Z.lor (Z.lor (Z.lor (Z.lor (Z.lor SP_THRU SP_SENSE)
    (if response_code chars =? 0x70 then 0 else SP_DEFERRED))
    (int_mul (sense_key chars) (lsb SP_SK)))
    (if 0xC <? effective_length chars length
     then int_mul (Z.land (byte_of chars 0xC) 0xFF) (lsb SP_ASC) else 0))
    (if 0xD <? effective_length chars length
     then int_mul (Z.land (byte_of chars 0xD) 0xFF) (lsb SP_ASCQ) else 0).

(** The indices a decoding within the bytes reads, in order. *)
Definition sense_reads (chars : list Z) (length : Z) : list Z :=
  if 2 <? length then
    2 :: 0 ::
      (if (response_code chars =? 0x70) || (response_code chars =? 0x71)
       then (if 7 <? length then [7] else [])
            ++ (if 0xC <? effective_length chars length then [0xC] else [])
            ++ (if 0xD <? effective_length chars length then [0xD] else [])
       else [])
  else [].

(** ** Bits of the exit int *)

(** All bits of [flag] are set in [r]. *)
Definition has_flag (flag r : Z) : Prop := Z.land r flag = flag.

(** The value [r] carries under [mask], undoing [value * lsb(mask)]. *)
Definition field (mask r : Z) : Z := Z.land r mask / lsb mask.

(** [mask] is [width] adjacent bits of a nonnegative [int]. *)
Definition field_mask (width mask : Z) : Prop :=
  exists k, 0 <= k /\ mask = Z.ones width * 2 ^ k /\ mask < 2 ^ 31.

(** No two of the masks share a bit. *)
Fixpoint apart (l : list Z) : Prop :=
  match l with
  | [] => True
  | x :: l' =>
      Forall (fun y => Z.land x y = 0 /\ Z.land y x = 0) l' /\ apart l'
  end.

(** Modelled from the spec: the bit layout of the exit int, which "xscsi.h"
    fixes and the sources leave out.  The marker of a failed pass thru is
    apart from every nonnegative residue, the five flags are bits of their
    own that can be or'ed at will, and Sense Key, ASC and ASCQ have fields
    of 4, 8 and 8 adjacent bits that overlap nothing. *)
Record exit_int_layout `{xscsi_h} : Prop := {
  thru_negative : SP_THRU < 0;
  flags_nonzero :
    Forall (fun flag => flag <> 0)
      [SP_DATA_THRU; SP_SENSE_THRU; SP_RESIDUE; SP_SENSE; SP_DEFERRED];
  sk_mask : field_mask 4 SP_SK;
  asc_mask : field_mask 8 SP_ASC;
  ascq_mask : field_mask 8 SP_ASCQ;
  bits_apart :
    apart [SP_THRU; SP_DATA_THRU; SP_SENSE_THRU; SP_RESIDUE; SP_SENSE;
           SP_DEFERRED; SP_SK; SP_ASC; SP_ASCQ]
}.

(** ** A bench to run the code on *)

(** One assignment of the bits that has the layout. *)
Definition bench_xscsi_h : xscsi_h := {|
  SP_THRU := - 0x80000000;
  SP_DATA_THRU := 0x40000000;
  SP_SENSE_THRU := 0x20000000;
  SP_RESIDUE := 0x10000000;
  SP_SENSE := 0x08000000;
  SP_DEFERRED := 0x04000000;
  SP_SK := 0x000F0000;
  SP_ASC := 0x0000FF00;
  SP_ASCQ := 0x000000FF
|}.

(** A driver that returns [i] and leaves the given residue, count of sense
    bytes and info in the header. *)
Definition set_reply (residue sense_enough inf : Z) (h : sg_io_hdr_t)
  : sg_io_hdr_t := {|
  interface_id := interface_id h; dxfer_direction := dxfer_direction h;
  cmd_len := cmd_len h; mx_sb_len := mx_sb_len h;
  iovec_count := iovec_count h; dxfer_len := dxfer_len h;
  dxferp := dxferp h; cmdp := cmdp h; sbp := sbp h; timeout := timeout h;
  flags := flags h; pack_id := pack_id h; usr_ptr := usr_ptr h;
  status := status h; masked_status := masked_status h;
  msg_status := msg_status h; sb_len_wr := sense_enough;
  host_status := host_status h; driver_status := driver_status h;
  resid := residue; duration := duration h; info := inf
|}.

Definition bench_driver (i residue sense_enough inf : Z) : sg_driver := {|
  ioctl_SG_IO := fun _ m =>
    (i, with_sp (with_sih (set_reply residue sense_enough inf)) m)
|}.

(** Fixed sense of 14 bytes: current, Sense Key 5, ASC x21, ASCQ x22. *)
Definition bench_sense : list Z :=
  [0x70; 0x00; 0x05; 0; 0; 0; 0; 0x0A; 0; 0; 0; 0; 0x21; 0x22].

(** A freshly zeroed [struct sp] whose sense buffer holds the bytes. *)
Definition bench_machine (chars : list Z) : machine := {|
  the_sp := {| sih := @sih_fresh linux_sg_h; fd := 3; sense := chars |};
  buffers := fun _ => []
|}.

(** The bench after the driver answered a transfer of [max] bytes at
    [caller 0]. *)
Definition bench_after (d : direction) (chars : list Z) (max : Z)
    (residue sense_enough inf : Z) : machine :=
  with_sp (with_sih (set_reply residue sense_enough inf))
    (spoken (H := linux_sg_h) d (bench_machine chars) (caller 0) max).

(** * Connecting and disconnecting *)

From Stdlib Require String.

(** What [open], [close] and [ioctl(fd, SG_GET_VERSION_NUM, &version)] work
    on: [errno] and whatever else the system keeps. *)
Record process (K : Type) : Type := {
  errno : Z;
  kernel : K
}.

Arguments errno {K} _.
Arguments kernel {K} _.

Definition with_errno {K : Type} (v : Z) (w : process K) : process K :=
  {| errno := v; kernel := kernel w |}.

(** The system calls of [sp_open] and [sp_close], with the constants of
    <fcntl.h> and <errno.h>.  Each call returns its int and the process it
    leaves; the ioctl also returns what [version] holds afterwards. *)
Class libc (K : Type) : Type := {
  O_RDONLY : Z;
  O_NONBLOCK : Z;
  EINVAL : Z;
  os_open : String.string -> Z -> process K -> Z * process K;
  os_close : Z -> process K -> Z * process K;
  os_ioctl_version : Z -> Z -> process K -> Z * Z * process K
}.

(** [exite] prints [errno] and leaves through [exit(-line)]. *)
Definition exite {A : Type} (line : Z) : outcome A := Exited (- line).

(** Assignment to [sp->fd]. *)
Definition with_fd (v : Z) (sp : struct_sp) : struct_sp :=
  {| sih := sih sp; fd := v; sense := sense sp |}.

(** [void sp_close(struct sp * sp)] *)
Definition sp_close {K : Type} `{libc K} (sp : struct_sp) (w : process K)
  : outcome (struct_sp * process K) :=
  let '(i, w) := os_close (fd sp) w in
  if negb (i =? 0) then exite 86
  else ret (with_fd (-1) sp, w).

(** [int sp_open(struct sp * sp, char const * name)] *)
Definition sp_open {K : Type} `{sg_h} `{libc K}
    (sp : struct_sp) (name : String.string) (w : process K)
  : outcome (Z * struct_sp * process K) :=
  let mode := Z.lor O_RDONLY O_NONBLOCK in
  let '(fd, w) := os_open name mode w in
  sp <- sp_zero sp ;;
  let sp := with_fd fd sp in
  if 0 <=? fd then
    let version := 0 in
    let '(i, version, w) := os_ioctl_version fd version w in
    let refused : outcome (Z * struct_sp * process K) :=
      '(sp, w) <- sp_close sp w ;;
      let w := with_errno EINVAL w in
      ret (-1, sp, w) in
    if 0 <=? i then
      if 30000 <=? version then ret (fd, sp, w)
      else refused
    else refused
  else ret (-1, sp, w).

(** A system for the bench: [open] returns [opened] and leaves [errno] at
    [open_errno], the ioctl returns [i] and writes [version] when [i] is not
    negative, [close] returns [closed]; the kernel counts the calls of
    [close]. *)
Definition bench_libc (opened open_errno i version closed : Z)
  : libc nat := {|
  O_RDONLY := 0;
  O_NONBLOCK := 2048;
  EINVAL := 22;
  os_open := fun _ _ w => (opened, with_errno open_errno w);
  os_close := fun _ w =>
    (closed, {| errno := errno w; kernel := S (kernel w) |});
  os_ioctl_version := fun _ v w => (i, (if 0 <=? i then version else v), w)
|}.

(** The device the bench opens: "sg0". *)
Definition bench_name : String.string :=
  String.String "s" (String.String "g" (String.String "0" String.EmptyString)).

(** * Properties *)

(** ** C integers *)

Lemma sint32_id (z : Z) : int_range z -> sint32 z = z.
Proof.
  unfold int_range, sint32. intros Hz.
  rewrite Z.mod_small by lia. lia.
Qed.

Lemma sint32_range (z : Z) : int_range (sint32 z).
Proof.
  unfold int_range, sint32.
  pose proof (Z.mod_pos_bound (z + 2 ^ 31) (2 ^ 32) ltac:(lia)). lia.
Qed.

Lemma sint32_uint32 (z : Z) : int_range z -> sint32 (uint32 z) = z.
Proof.
  unfold int_range, sint32, uint32. intros Hz.
  rewrite Zplus_mod_idemp_l. rewrite Z.mod_small by lia. lia.
Qed.

Lemma sint32_unwrap (z : Z) :
  exists k, sint32 z = z - k * 2 ^ 32 /\ int_range (sint32 z).
Proof.
  exists ((z + 2 ^ 31) / 2 ^ 32). split; [| apply sint32_range].
  unfold sint32.
  pose proof (Z.div_mod (z + 2 ^ 31) (2 ^ 32) ltac:(lia)). lia.
Qed.

Lemma uint8_fits (z : Z) : uint8 z = z <-> 0 <= z <= 255.
Proof.
  unfold uint8. split; intros Hz.
  - pose proof (Z.mod_pos_bound z (2 ^ 8) ltac:(lia)). lia.
  - apply Z.mod_small. lia.
Qed.

Lemma land_byte (c : Z) : 0 <= Z.land c 0xFF <= 255.
Proof.
  change (Z.land c 0xFF) with (Z.land c (Z.ones 8)).
  rewrite Z.land_ones by lia.
  pose proof (Z.mod_pos_bound c (2 ^ 8) ltac:(lia)). lia.
Qed.

(** ** Request configuration *)

(** C8.  A length of 0 to 255 is stored as it is, in [cmd_len] by [sp_cdb]
    and in [mx_sb_len] by [sp_sense], the pointer is stored beside it and
    returned, and nothing else of the request changes; any other length
    makes both leave through [exit] instead of returning. *)
Theorem sp_cdb_sp_sense_length (sp : struct_sp) (p : ptr) (max : Z) :
  (0 <= max <= 255 ->
   (exists sp', sp_cdb sp p max = Ret (sp', p)
                /\ cmd_len (sih sp') = max /\ cmdp (sih sp') = p
                /\ sp' = with_sih (set_cmd max p) sp)
   /\ (exists sp', sp_sense sp p max = Ret (sp', p)
                   /\ mx_sb_len (sih sp') = max /\ sbp (sih sp') = p
                   /\ sp' = with_sih (set_sb max p) sp))
  /\ (~ 0 <= max <= 255 ->
      sp_cdb sp p max = Exited (-131) /\ sp_sense sp p max = Exited (-153)).
Proof.
  unfold sp_cdb, sp_sense. split; intros Hmax.
  - apply uint8_fits in Hmax. rewrite Hmax, Z.eqb_refl. cbn.
    split; eexists; repeat split; reflexivity.
  - destruct (Z.eqb_spec (uint8 max) max) as [Heq | Hne].
    + apply uint8_fits in Heq. contradiction.
    + split; reflexivity.
Qed.

Lemma sp_cdb_sp_sense_length_witness :
  (exists sp',
     sp_cdb {| sih := sih_zeroed; fd := 3; sense := [] |} (caller 0) 12
       = Ret (sp', caller 0)
     /\ cmd_len (sih sp') = 12)
  /\ sp_sense {| sih := sih_zeroed; fd := 3; sense := [] |} (caller 1) 256
     = Exited (-153).
Proof.
  split.
  - destruct (proj1 (sp_cdb_sp_sense_length
                       {| sih := sih_zeroed; fd := 3; sense := [] |}
                       (caller 0) 12) ltac:(lia))
      as [[sp' (Hret & Hlen & _)] _].
    exists sp'. split; assumption.
  - apply (proj2 (sp_cdb_sp_sense_length
                    {| sih := sih_zeroed; fd := 3; sense := [] |}
                    (caller 1) 256)).
    lia.
Defined.

(** ** Time out *)

(** The milliseconds [sp_late] computes: when they pass its test they are
    [s * 1000] plus the nanoseconds rounded up to milliseconds, without any
    wrap, and they pass exactly when that sum is an [int] whose quotient by
    1000 is [s] again. *)
Lemma sp_late_ms (s ns : Z) :
  int_range s -> int_range ns -> -1000000 < ns ->
  let ms := int_add (int_mul s 1000)
              (int_div (int_div (int_add ns 999999) 1000) 1000) in
  let M := s * 1000 + ceil_div ns 1000000 in
  (int_div ms 1000 = s <-> int_range M /\ Z.quot M 1000 = s)
  /\ (int_div ms 1000 = s -> ms = M).
Proof.
  intros Hs Hns Hlo ms M. subst ms M.
  unfold int_add, int_mul, int_div, ceil_div.
  destruct (sint32_unwrap (ns + 999999)) as [k1 [E1 R1]].
  destruct (sint32_unwrap (s * 1000)) as [k2 [E2 R2]].
  set (a := sint32 (ns + 999999)) in *.
  set (b := sint32 (s * 1000)) in *.
  rewrite (sint32_id (Z.quot a 1000))
    by (unfold int_range in *; Z.quot_rem_to_equations; lia).
  rewrite (sint32_id (Z.quot (Z.quot a 1000) 1000))
    by (unfold int_range in *; Z.quot_rem_to_equations; lia).
  destruct (sint32_unwrap (b + Z.quot (Z.quot a 1000) 1000))
    as [k3 [E3 R3]].
  set (c := sint32 (b + Z.quot (Z.quot a 1000) 1000)) in *.
  rewrite (sint32_id (Z.quot c 1000))
    by (unfold int_range in *; Z.quot_rem_to_equations; lia).
  unfold int_range in *.
  Z.quot_rem_to_equations. Z.div_mod_to_equations. lia.
Qed.

(** The nanoseconds [sp_late] returns for a stored time out. *)
Lemma sp_late_ns (t : Z) :
  0 <= t ->
  sint32 (uint_mul (uint_mul (uint_rem t 1000) 1000) 1000)
  = (t mod 1000) * 1000000.
Proof.
  intros Ht. unfold uint_mul, uint_rem, uint32.
  rewrite Z.rem_mod_nonneg by lia.
  pose proof (Z.mod_pos_bound t 1000 ltac:(lia)) as Hr.
  rewrite (Z.mod_small (t mod 1000 * 1000)) by lia.
  rewrite (Z.mod_small (t mod 1000 * 1000 * 1000)) by lia.
  rewrite sint32_id by (unfold int_range; lia). lia.
Qed.

(** C7.  Take seconds [s] and nanoseconds [ns] of type [int], both from 0
    on, and let [M] be [s * 1000] plus [ns] rounded up to whole
    milliseconds.  [sp_late] leaves through [exit] exactly when the
    milliseconds it computed, divided by 1000, are not [s] again: that is
    when [M], as an [int], has another quotient by 1000 than [s], or is no
    [int] at all.  Otherwise it returns, the time out stored is [M], and the
    int returned is the stored time out modulo 1000, times one million.
    With [ns] between 1 and 999999 the stored time out is [s * 1000 + 1],
    and [sp_late(sp, 0, 1)] stores 1 and returns one million. *)
Theorem sp_late_timeout (sp : struct_sp) (s ns : Z) :
  int_range s -> int_range ns -> 0 <= s -> 0 <= ns ->
  let M := s * 1000 + ceil_div ns 1000000 in
  (int_range M /\ Z.quot M 1000 = s <-> Z.quot (sint32 M) 1000 = s)
  /\ (Z.quot (sint32 M) 1000 = s ->
      sp_late sp s ns
      = Ret (with_sih (set_timeout M) sp, (M mod 1000) * 1000000)
      /\ timeout (sih (with_sih (set_timeout M) sp)) = M
      /\ (1 <= ns <= 999999 -> M = s * 1000 + 1))
  /\ (Z.quot (sint32 M) 1000 <> s -> sp_late sp s ns = Exited (-165))
  /\ sp_late sp 0 1 = Ret (with_sih (set_timeout 1) sp, 1000000).
Proof.
  intros Hs Hns Hs0 Hns0 M.
  destruct (sp_late_ms s ns Hs Hns ltac:(lia)) as [Hiff Hms].
  fold M in Hiff, Hms.
  assert (Hceil : 0 <= ceil_div ns 1000000 <= 2148).
  { unfold ceil_div, int_range in *. Z.div_mod_to_equations. lia. }
  assert (Hwrap : int_range M /\ Z.quot M 1000 = s
                  <-> Z.quot (sint32 M) 1000 = s).
  { split.
    - intros [HM Hq]. rewrite sint32_id by exact HM. exact Hq.
    - intros Hq. destruct (sint32_unwrap M) as [k [Ek Rk]].
      assert (HM : int_range M).
      { unfold int_range in *. fold M in Ek.
        set (c := sint32 M) in *. subst M.
        Z.quot_rem_to_equations. lia. }
      split; [exact HM |]. rewrite sint32_id in Hq by exact HM. exact Hq. }
  split; [exact Hwrap |]. split; [| split].
  - intros Hq. apply Hwrap in Hq. pose proof (proj2 Hiff Hq) as Hok.
    specialize (Hms Hok). destruct Hq as [HM Hq].
    assert (Hu : uint32 M = M).
    { unfold uint32. apply Z.mod_small. unfold int_range in HM.
      subst M. lia. }
    unfold sp_late. rewrite Hok, Z.eqb_refl, Hms, Hu. cbn [negb].
    split; [| split].
    + cbn. rewrite sp_late_ns by (subst M; lia). reflexivity.
    + reflexivity.
    + intros Hone. subst M. unfold ceil_div. Z.div_mod_to_equations. lia.
  - intros Hrej. unfold sp_late.
    destruct (Z.eqb_spec
                (int_div
                   (int_add (int_mul s 1000)
                      (int_div (int_div (int_add ns 999999) 1000) 1000))
                   1000) s) as [Heq | Hne].
    + exfalso. apply Hrej. apply Hwrap. apply Hiff. exact Heq.
    + reflexivity.
  - reflexivity.
Qed.

Lemma sp_late_timeout_witness :
  sp_late {| sih := sih_zeroed; fd := 3; sense := [] |} 2 1500000
  = Ret (with_sih (set_timeout 2002)
           {| sih := sih_zeroed; fd := 3; sense := [] |},
         2000000).
Proof.
  refine (proj1 (proj1 (proj2 (sp_late_timeout
                   {| sih := sih_zeroed; fd := 3; sense := [] |}
                   2 1500000 _ _ _ _)) _)).
  - unfold int_range. lia.
  - unfold int_range. lia.
  - lia.
  - lia.
  - reflexivity.
Defined.

(** Below 0 the division of C, which truncates toward zero, is no rounding
    up: of minus one million nanoseconds it makes no millisecond at all. *)
Example sp_late_negative_ns :
  sp_late {| sih := sih_zeroed; fd := 3; sense := [] |} 5 (-1000000)
  = Ret (with_sih (set_timeout 5000)
           {| sih := sih_zeroed; fd := 3; sense := [] |}, 0).
Proof. reflexivity. Qed.

(** Negative seconds pass the test with no nanoseconds beside them, and
    the unsigned time out then holds them modulo 2^32. *)
Example sp_late_negative_seconds :
  sp_late {| sih := sih_zeroed; fd := 3; sense := [] |} (-1) 0
  = Ret (with_sih (set_timeout (2 ^ 32 - 1000))
           {| sih := sih_zeroed; fd := 3; sense := [] |},
         296000000).
Proof. reflexivity. Qed.

(** ** Reset *)

(** C9.  [sp_zero] returns, leaves [fd] (and the sense bytes) as they were
    and the request zero but for the tag 'S', the direction none, the sense
    buffer of 18 bytes inside the struct and the time out of 28 hours in
    milliseconds; a second [sp_zero] changes nothing more. *)
Theorem sp_zero_idempotent `{sg_h} (sp : struct_sp) :
  exists sp1,
    sp_zero sp = Ret sp1
    /\ sp_zero sp1 = Ret sp1
    /\ fd sp1 = fd sp
    /\ sense sp1 = sense sp
    /\ sih sp1 = sih_fresh
    /\ interface_id sih_fresh = 83
    /\ dxfer_direction sih_fresh = SG_DXFER_NONE
    /\ (mx_sb_len sih_fresh = 18 /\ sbp sih_fresh = own_sense)
    /\ timeout sih_fresh = 28 * 60 * 60 * 1000
    /\ sih_fresh =
       set_timeout (timeout sih_fresh)
         (set_sb (mx_sb_len sih_fresh) (sbp sih_fresh)
            (set_dxfer_direction (dxfer_direction sih_fresh)
               (set_interface_id (interface_id sih_fresh) sih_zeroed))).
Proof.
  exists {| sih := sih_fresh; fd := fd sp; sense := sense sp |}.
  repeat split.
Qed.

Example sp_zero_after_use :
  sp_zero (H := linux_sg_h)
    {| sih := set_reply 7 14 1 (set_cmd 6 (caller 0) sih_zeroed);
       fd := 3; sense := bench_sense |}
  = Ret {| sih := sih_fresh (H := linux_sg_h); fd := 3;
           sense := bench_sense |}.
Proof. reflexivity. Qed.

(** ** Pass thru: the exit int *)

Lemma transfer_is `{xscsi_h} `{sg_h} `{sg_driver} :
  transfer from_dev = sp_read /\ transfer to_dev = sp_write.
Proof. split; reflexivity. Qed.

Section Transfer.
Context `{xscsi_h} `{sg_h} `{sg_driver}.

Variables (d : direction) (m : machine) (p : ptr) (max : Z).
Variables (i : Z) (m' : machine).

(** The driver's answer to this transfer. *)
Hypothesis driver_answer :
  ioctl_SG_IO (fd (the_sp m)) (spoken d m p max) = (i, m').

Lemma transfer_speaks : transfer d m p max = sp_speak (spoken d m p max).
Proof. destruct d; reflexivity. Qed.

Lemma transfer_failed : i < 0 -> transfer d m p max = Ret (SP_THRU, m').
Proof.
  intros Hi. rewrite transfer_speaks. unfold sp_speak.
  replace (fd (the_sp (spoken d m p max))) with (fd (the_sp m))
    by reflexivity.
  rewrite driver_answer.
  apply Z.ltb_lt in Hi. rewrite Hi. reflexivity.
Qed.

Lemma transfer_data_thru :
  int_range max -> 0 <= i ->
  resid (sih (the_sp m')) < 0 \/ max < resid (sih (the_sp m')) ->
  transfer d m p max = Ret (Z.lor SP_THRU SP_DATA_THRU, m').
Proof.
  intros Hmax Hi Hres. rewrite transfer_speaks. unfold sp_speak.
  replace (fd (the_sp (spoken d m p max))) with (fd (the_sp m))
    by reflexivity.
  rewrite driver_answer.
  replace (dxfer_len (sih (the_sp (spoken d m p max))))
    with (uint32 max) by reflexivity.
  rewrite (sint32_uint32 max Hmax).
  apply Z.ltb_ge in Hi. rewrite Hi.
  assert (Hb : (resid (sih (the_sp m')) <? 0)
               || (max <? resid (sih (the_sp m'))) = true).
  { apply orb_true_iff. destruct Hres as [Hr | Hr];
      [left | right]; apply Z.ltb_lt; exact Hr. }
  rewrite Hb. reflexivity.
Qed.

(** Past the tests of [i] and of the residue. *)
Lemma transfer_counted :
  int_range max -> 0 <= i -> 0 <= resid (sih (the_sp m')) <= max ->
  transfer d m p max =
  if negb (Z.land (info (sih (the_sp m'))) SG_INFO_OK_MASK =? SG_INFO_OK)
  then
    if (sb_len_wr (sih (the_sp m')) <? 0)
       || (mx_sb_len (sih (the_sp m)) <? sb_len_wr (sih (the_sp m')))
    then Ret (Z.lor SP_THRU SP_SENSE_THRU, m')
    else
      match decoded (bytes_at m' (sbp (sih (the_sp m))))
                    (sb_len_wr (sih (the_sp m'))) with
      | None => Undefined
      | Some from_sense =>
          Ret (if negb (0 =? resid (sih (the_sp m')))
               then Z.lor (Z.lor SP_THRU from_sense) SP_RESIDUE
               else Z.lor SP_THRU from_sense, m')
      end
  else Ret (resid (sih (the_sp m')), m').
Proof.
  intros Hmax Hi Hres. rewrite transfer_speaks. unfold sp_speak.
  replace (fd (the_sp (spoken d m p max))) with (fd (the_sp m))
    by reflexivity.
  rewrite driver_answer.
  replace (dxfer_len (sih (the_sp (spoken d m p max))))
    with (uint32 max) by reflexivity.
  rewrite (sint32_uint32 max Hmax).
  apply Z.ltb_ge in Hi. rewrite Hi.
  assert (Hb : (resid (sih (the_sp m')) <? 0)
               || (max <? resid (sih (the_sp m'))) = false).
  { apply orb_false_iff. split; apply Z.ltb_ge; lia. }
  rewrite Hb.
  replace (mx_sb_len (sih (the_sp (spoken d m p max))))
    with (mx_sb_len (sih (the_sp m))) by reflexivity.
  replace (sbp (sih (the_sp (spoken d m p max))))
    with (sbp (sih (the_sp m))) by reflexivity.
  destruct (negb (Z.land (info (sih (the_sp m'))) SG_INFO_OK_MASK
                  =? SG_INFO_OK)); [| reflexivity].
  destruct ((sb_len_wr (sih (the_sp m')) <? 0)
            || (mx_sb_len (sih (the_sp m)) <? sb_len_wr (sih (the_sp m'))));
    [reflexivity |].
  destruct (decoded (bytes_at m' (sbp (sih (the_sp m))))
                    (sb_len_wr (sih (the_sp m')))); [| reflexivity].
  destruct (negb (0 =? resid (sih (the_sp m')))); reflexivity.
Qed.

Lemma transfer_clean :
  int_range max -> 0 <= i -> 0 <= resid (sih (the_sp m')) <= max ->
  Z.land (info (sih (the_sp m'))) SG_INFO_OK_MASK = SG_INFO_OK ->
  transfer d m p max = Ret (resid (sih (the_sp m')), m').
Proof.
  intros Hmax Hi Hres Hok. rewrite transfer_counted by assumption.
  apply Z.eqb_eq in Hok. rewrite Hok. reflexivity.
Qed.

Lemma transfer_sense_thru :
  int_range max -> 0 <= i -> 0 <= resid (sih (the_sp m')) <= max ->
  Z.land (info (sih (the_sp m'))) SG_INFO_OK_MASK <> SG_INFO_OK ->
  sb_len_wr (sih (the_sp m')) < 0
  \/ mx_sb_len (sih (the_sp m)) < sb_len_wr (sih (the_sp m')) ->
  transfer d m p max = Ret (Z.lor SP_THRU SP_SENSE_THRU, m').
Proof.
  intros Hmax Hi Hres Hun Hse. rewrite transfer_counted by assumption.
  apply Z.eqb_neq in Hun. rewrite Hun. cbn [negb].
  assert (Hb : (sb_len_wr (sih (the_sp m')) <? 0)
               || (mx_sb_len (sih (the_sp m))
                   <? sb_len_wr (sih (the_sp m'))) = true).
  { apply orb_true_iff. destruct Hse as [Hr | Hr];
      [left | right]; apply Z.ltb_lt; exact Hr. }
  rewrite Hb. reflexivity.
Qed.

Lemma transfer_sense :
  int_range max -> 0 <= i -> 0 <= resid (sih (the_sp m')) <= max ->
  Z.land (info (sih (the_sp m'))) SG_INFO_OK_MASK <> SG_INFO_OK ->
  0 <= sb_len_wr (sih (the_sp m')) <= mx_sb_len (sih (the_sp m)) ->
  forall from_sense,
    decoded (bytes_at m' (sbp (sih (the_sp m))))
            (sb_len_wr (sih (the_sp m'))) = Some from_sense ->
    transfer d m p max =
    Ret (if resid (sih (the_sp m')) =? 0 then Z.lor SP_THRU from_sense
         else Z.lor (Z.lor SP_THRU from_sense) SP_RESIDUE, m').
Proof.
  intros Hmax Hi Hres Hun Hse from_sense Hdec.
  rewrite transfer_counted by assumption.
  apply Z.eqb_neq in Hun. rewrite Hun. cbn [negb].
  assert (Hb : (sb_len_wr (sih (the_sp m')) <? 0)
               || (mx_sb_len (sih (the_sp m))
                   <? sb_len_wr (sih (the_sp m'))) = false).
  { apply orb_false_iff. split; apply Z.ltb_ge; lia. }
  rewrite Hb, Hdec. rewrite (Z.eqb_sym 0 (resid (sih (the_sp m')))).
  destruct (resid (sih (the_sp m')) =? 0); reflexivity.
Qed.

End Transfer.

(** ** The sense decoder: what it reads *)

Lemma char_at_inside (chars : list Z) (i : Z) :
  0 <= i < Z.of_nat (List.length chars) ->
  char_at i chars = (Some (byte_of chars i), [i]).
Proof.
  intros Hi. unfold char_at, byte_of.
  destruct (Z.leb_spec 0 i) as [_ | Hneg]; [| lia].
  rewrite (nth_error_nth' chars 0) by lia. reflexivity.
Qed.

Lemma char_at_cases (chars : list Z) (i : Z) :
  (~ 0 <= i < Z.of_nat (List.length chars)
   /\ char_at i chars = (None, [i]))
  \/ (0 <= i < Z.of_nat (List.length chars)
      /\ char_at i chars = (Some (byte_of chars i), [i])).
Proof.
  destruct (Z.leb_spec 0 i) as [Hpos | Hneg].
  - destruct (Z.ltb_spec i (Z.of_nat (List.length chars))) as [Hin | Hout].
    + right. split; [lia | apply char_at_inside; lia].
    + left. split; [lia |]. unfold char_at.
      destruct (0 <=? i); [| reflexivity].
      rewrite (proj2 (nth_error_None chars (Z.to_nat i))) by lia.
      reflexivity.
  - left. split; [lia |]. unfold char_at.
    destruct (Z.leb_spec 0 i); [lia | reflexivity].
Qed.

Lemma clamp_sum (al : Z) :
  0 <= al <= 255 -> int_add (int_add 7 1) al = 8 + al.
Proof.
  intros Hal. unfold int_add.
  rewrite (sint32_id (7 + 1)) by (unfold int_range; lia).
  rewrite sint32_id by (unfold int_range; lia). lia.
Qed.

(** One step through [int_from_sense]: a read either lands in the bytes
    or not, a test goes either way. *)
Ltac decode_step :=
  cbn [bind ret Monad_reader negb andb orb fst snd app];
  match goal with
  | |- context [int_add (int_add 7 1) (Z.land ?c 255)] =>
      rewrite (clamp_sum _ (land_byte c))
  | |- context [char_at ?i ?c] =>
      let E := fresh "E" in
      destruct (char_at_cases c i) as [[? E] | [? E]]; rewrite E; clear E
  | |- context [Z.ltb ?a ?b] => destruct (Z.ltb_spec a b)
  | |- context [Z.eqb ?a ?b] => destruct (Z.eqb_spec a b)
  end.

Section Decoder.
Context `{xscsi_h}.

(** Whatever the bytes, every index asked for is one of 2, 0, 7, xC and xD,
    lies below the length, which is then above 2, and xC and xD lie below
    the effective length. *)
Lemma indices_read_cases (chars : list Z) (length i : Z) :
  In i (indices_read chars length) ->
  2 < length
  /\ 0 <= i < length
  /\ (i = 0 \/ i = 2 \/ i = 7 \/ i = 0xC \/ i = 0xD)
  /\ (0xC <= i -> i < effective_length chars length).
Proof.
  unfold indices_read, int_from_sense, effective_length, additional_length.
  pose proof (land_byte (byte_of chars 7)) as Hal.
  repeat decode_step.
  all: intros Hi; cbn [In] in Hi.
  all: repeat (destruct Hi as [<- | Hi]); try contradiction.
  all: cbn [negb andb orb] in *; lia.
Qed.

(** Within the bytes, the decoding runs to its end. *)
Lemma int_from_sense_inside (chars : list Z) (length : Z) :
  length <= Z.of_nat (List.length chars) ->
  int_from_sense length chars
  = (Some (if intelligible chars length then sense_bits chars length
           else SP_THRU),
     sense_reads chars length).
Proof.
  intros Hlen.
  unfold int_from_sense, intelligible, sense_bits, sense_reads,
    effective_length, additional_length, response_code, sense_key.
  pose proof (land_byte (byte_of chars 7)) as Hal.
  repeat decode_step.
  all: cbn [negb andb orb app] in *.
  all: rewrite ?Z.lor_0_r.
  all: try reflexivity.
  all: lia.
Qed.

Lemma decoded_inside (chars : list Z) (length : Z) :
  length <= Z.of_nat (List.length chars) ->
  decoded chars length
  = Some (if intelligible chars length then sense_bits chars length
          else SP_THRU).
Proof.
  intros Hlen. unfold decoded.
  rewrite int_from_sense_inside by exact Hlen. reflexivity.
Qed.

Lemma decoded_short (chars : list Z) (length : Z) :
  length <= 2 -> int_from_sense length chars = (Some SP_THRU, []).
Proof.
  intros Hlen. unfold int_from_sense.
  destruct (Z.ltb_spec 2 length); [lia | reflexivity].
Qed.

Lemma decoded_unintelligible (chars : list Z) (length : Z) :
  unintelligible chars length -> decoded chars length = Some SP_THRU.
Proof.
  intros [Hshort | (Hlen & H70 & H71)].
  - unfold decoded. rewrite decoded_short by exact Hshort. reflexivity.
  - rewrite decoded_inside by exact Hlen. unfold intelligible.
    apply Z.eqb_neq in H70, H71. rewrite H70, H71, andb_false_r.
    reflexivity.
Qed.

End Decoder.

(** ** Bits *)

Lemma land_odd_opp (a : Z) : Z.odd a = true -> Z.land a (- a) = 1.
Proof.
  intros Hodd.
  assert (Ha : a = 2 * Z.div2 a + 1).
  { apply Zodd_div2, Zodd_bool_iff. exact Hodd. }
  set (q := Z.div2 a) in Ha. rewrite Ha.
  apply Z.bits_inj'. intros n Hn.
  rewrite Z.land_spec, Z.bits_opp by exact Hn.
  replace (Z.pred (2 * q + 1)) with (2 * q) by lia.
  destruct (Z.eq_dec n 0) as [-> | Hpos].
  - rewrite Z.testbit_odd_0, Z.testbit_even_0. reflexivity.
  - replace n with (Z.succ (n - 1)) by lia.
    rewrite Z.testbit_odd_succ, Z.testbit_even_succ by lia.
    rewrite andb_negb_r.
    change 1 with (2 * 0 + 1). rewrite Z.testbit_odd_succ by lia.
    rewrite Z.testbit_0_l. reflexivity.
Qed.

(** [lsb] does what its comment says: of an odd number shifted up by [k]
    bits it keeps bit [k] alone. *)
Lemma lsb_shifted (a k : Z) :
  0 <= k -> Z.odd a = true -> 0 < a * 2 ^ k < 2 ^ 31 ->
  lsb (a * 2 ^ k) = 2 ^ k.
Proof.
  intros Hk Hodd Hr. unfold lsb, int_neg.
  rewrite sint32_id by (unfold int_range; lia).
  rewrite <- Z.mul_opp_l.
  rewrite <- !Z.shiftl_mul_pow2 by exact Hk.
  rewrite <- Z.shiftl_land, land_odd_opp by exact Hodd.
  rewrite Z.shiftl_mul_pow2 by exact Hk. lia.
Qed.

(** A value within [w] bits, shifted up by [k] bits, stays under the mask
    of [w] bits at [k]. *)
Lemma part_inside (v w k : Z) :
  0 <= k -> 0 <= w -> 0 <= v < 2 ^ w ->
  Z.land (v * 2 ^ k) (Z.ones w * 2 ^ k) = v * 2 ^ k.
Proof.
  intros Hk Hw Hv.
  rewrite <- !Z.shiftl_mul_pow2 by exact Hk.
  rewrite <- Z.shiftl_land, Z.land_ones by exact Hw.
  rewrite Z.mod_small by exact Hv. reflexivity.
Qed.

Lemma inside_apart (a mask x : Z) :
  Z.land a mask = a -> Z.land mask x = 0 -> Z.land a x = 0.
Proof.
  intros Ha Hx. rewrite <- Ha, <- Z.land_assoc, Hx. apply Z.land_0_r.
Qed.

(** [v * lsb(mask)] puts [v] under the mask, and the division by
    [lsb(mask)] gets it back. *)
Lemma placed (w mask v : Z) :
  0 < w -> field_mask w mask -> 0 <= v < 2 ^ w ->
  Z.land (int_mul v (lsb mask)) mask = int_mul v (lsb mask)
  /\ int_mul v (lsb mask) / lsb mask = v.
Proof.
  intros Hw [k (Hk & Hmask & Hlt)] Hv.
  assert (Hones : Z.ones w = 2 ^ w - 1) by (rewrite Z.ones_equiv; lia).
  assert (Hodd : Z.odd (Z.ones w) = true).
  { rewrite Hones, Z.odd_sub, Z.odd_pow by lia. reflexivity. }
  assert (H2k : 0 < 2 ^ k) by (apply Z.pow_pos_nonneg; lia).
  assert (H2w : 2 ^ 1 <= 2 ^ w) by (apply Z.pow_le_mono_r; lia).
  change (2 ^ 1) with 2 in H2w.
  assert (Hlsb : lsb mask = 2 ^ k).
  { rewrite Hmask. apply lsb_shifted; [exact Hk | exact Hodd |].
    rewrite <- Hmask. split; [| exact Hlt]. rewrite Hmask. nia. }
  assert (Hmul : int_mul v (lsb mask) = v * 2 ^ k).
  { unfold int_mul. rewrite Hlsb. apply sint32_id. unfold int_range. nia. }
  rewrite Hmul, Hlsb. split.
  - rewrite Hmask. apply part_inside; lia.
  - apply Z.div_mul. lia.
Qed.

(** Turn the layout into its equations, one per pair of masks. *)
Ltac layout_equations Hapart :=
  cbn [apart] in Hapart;
  repeat match goal with
         | H : _ /\ _ |- _ => destruct H
         | H : Forall _ (_ :: _) |- _ => inversion H; clear H; subst
         | H : Forall _ [] |- _ => clear H
         end.

Ltac rewrite_lands :=
  repeat match goal with
         | H : Z.land ?a ?b = _ |- context [Z.land ?a ?b] => rewrite H
         end.

Section Layout.
Context `{xscsi_h}.
Hypothesis layout : exit_int_layout.

(** The bare marker carries no flag and no field. *)
Lemma thru_bare :
  has_flag SP_THRU SP_THRU
  /\ ~ has_flag SP_SENSE SP_THRU
  /\ ~ has_flag SP_DEFERRED SP_THRU
  /\ field SP_SK SP_THRU = 0
  /\ field SP_ASC SP_THRU = 0
  /\ field SP_ASCQ SP_THRU = 0.
Proof.
  destruct layout as [_ Hflags _ _ _ Hapart].
  layout_equations Hapart.
  unfold has_flag, field. rewrite_lands.
  rewrite Z.land_diag, !Zdiv_0_l.
  repeat split; try reflexivity; intros; congruence.
Qed.

(** The flags and fields of intelligible sense. *)
Lemma sense_bits_fields (chars : list Z) (length : Z) :
  has_flag SP_THRU (sense_bits chars length)
  /\ has_flag SP_SENSE (sense_bits chars length)
  /\ (has_flag SP_DEFERRED (sense_bits chars length)
      <-> response_code chars <> 0x70)
  /\ field SP_SK (sense_bits chars length) = sense_key chars
  /\ field SP_ASC (sense_bits chars length)
     = (if 0xC <? effective_length chars length
        then Z.land (byte_of chars 0xC) 0xFF else 0)
  /\ field SP_ASCQ (sense_bits chars length)
     = (if 0xD <? effective_length chars length
        then Z.land (byte_of chars 0xD) 0xFF else 0).
Proof.
  destruct layout as [_ Hflags Hsk Hasc Hascq Hapart].
  assert (Hkey : 0 <= sense_key chars < 2 ^ 4).
  { unfold sense_key.
    change (Z.land (byte_of chars 2) 0x0F)
      with (Z.land (byte_of chars 2) (Z.ones 4)).
    rewrite Z.land_ones by lia. apply Z.mod_pos_bound. lia. }
  pose proof (land_byte (byte_of chars 0xC)) as HbC.
  pose proof (land_byte (byte_of chars 0xD)) as HbD.
  destruct (placed 4 SP_SK (sense_key chars) ltac:(lia) Hsk Hkey)
    as (HKin & HKv).
  destruct (placed 8 SP_ASC (Z.land (byte_of chars 0xC) 0xFF)
              ltac:(lia) Hasc ltac:(lia)) as (HAin & HAv).
  destruct (placed 8 SP_ASCQ (Z.land (byte_of chars 0xD) 0xFF)
              ltac:(lia) Hascq ltac:(lia)) as (HQin & HQv).
  unfold sense_bits.
  set (K := int_mul (sense_key chars) (lsb SP_SK)) in *.
  set (A := int_mul (Z.land (byte_of chars 0xC) 0xFF) (lsb SP_ASC)) in *.
  set (Q := int_mul (Z.land (byte_of chars 0xD) 0xFF) (lsb SP_ASCQ)) in *.
  layout_equations Hapart.
  repeat match goal with
         | Hin : Z.land ?P ?M = ?P, Hx : Z.land ?M ?X = 0 |- _ =>
             lazymatch goal with
             | _ : Z.land P X = 0 |- _ => fail
             | _ => pose proof (inside_apart P M X Hin Hx)
             end
         end.
  clearbody K A Q.
  unfold has_flag, field.
  destruct (Z.eqb_spec (response_code chars) 0x70);
    destruct (0xC <? effective_length chars length);
    destruct (0xD <? effective_length chars length).
  all: rewrite !Z.land_lor_distr_l.
  all: rewrite_lands.
  all: rewrite ?Z.land_diag, ?Z.land_0_l, ?Z.lor_0_r, ?Z.lor_0_l.
  all: rewrite ?HKv, ?HAv, ?HQv, ?Zdiv_0_l.
  all: repeat split; try reflexivity; intros; congruence.
Qed.

End Layout.

Lemma bench_layout : exit_int_layout (H := bench_xscsi_h).
Proof.
  split.
  - reflexivity.
  - repeat constructor; discriminate.
  - exists 16. repeat split; vm_compute; first [reflexivity | discriminate].
  - exists 8. repeat split; vm_compute; first [reflexivity | discriminate].
  - exists 0. repeat split; vm_compute; first [reflexivity | discriminate].
  - cbn [apart]. repeat split; repeat constructor.
Qed.

(** ** The sense decoder: its exit int *)

Example int_from_sense_bench :
  int_from_sense (H := bench_xscsi_h) 14 bench_sense
  = (Some (- 0x80000000 + 0x08000000 + 0x00050000 + 0x00002100 + 0x22),
     [2; 0; 7; 0xC; 0xD]).
Proof. reflexivity. Qed.

Example int_from_sense_clamped :
  int_from_sense (H := bench_xscsi_h) 14
    [0x71; 0; 0x05; 0; 0; 0; 0; 0x05; 0; 0; 0; 0; 0x21; 0x22]
  = (Some (- 0x80000000 + 0x08000000 + 0x04000000 + 0x00050000 + 0x00002100),
     [2; 0; 7; 0xC]).
Proof. reflexivity. Qed.

Example int_from_sense_beyond :
  int_from_sense (H := bench_xscsi_h) 14 [0x70; 0; 0x05; 0; 0; 0; 0; 0]
  = (None, [2; 0; 7; 0xC]).
Proof. reflexivity. Qed.

(** C5.  Sense of at most 2 bytes, or whose byte 0 has low 7 bits other
    than x70 and x71, decodes to the bare marker: no sense flag, no
    deferred flag, and zero Sense Key, ASC and ASCQ.  Other sense of a
    length within the bytes decodes to the marker with the sense flag, with
    the deferred flag exactly when the response code is not x70, and with
    the low 4 bits of byte 2 in the field of the Sense Key. *)
Theorem int_from_sense_flags_and_key `{xscsi_h}
    (chars : list Z) (length : Z) :
  exit_int_layout ->
  (unintelligible chars length ->
   decoded chars length = Some SP_THRU
   /\ ~ has_flag SP_SENSE SP_THRU
   /\ ~ has_flag SP_DEFERRED SP_THRU
   /\ field SP_SK SP_THRU = 0
   /\ field SP_ASC SP_THRU = 0
   /\ field SP_ASCQ SP_THRU = 0)
  /\ (2 < length <= Z.of_nat (List.length chars) ->
      Z.land (byte_of chars 0) 0x7F = 0x70
      \/ Z.land (byte_of chars 0) 0x7F = 0x71 ->
      exists r,
        decoded chars length = Some r
        /\ r = sense_bits chars length
        /\ has_flag SP_THRU r
        /\ has_flag SP_SENSE r
        /\ (has_flag SP_DEFERRED r <-> Z.land (byte_of chars 0) 0x7F <> 0x70)
        /\ field SP_SK r = Z.land (byte_of chars 2) 0x0F).
Proof.
  intros L. split.
  - intros Hun. split; [apply decoded_unintelligible; exact Hun |].
    destruct (thru_bare L) as (_ & HS & HD & HK & HA & HQ).
    repeat split; assumption.
  - intros [H2 Hlen] Hrc.
    exists (sense_bits chars length).
    destruct (sense_bits_fields L chars length)
      as (HT & HS & HD & HK & _ & _).
    rewrite decoded_inside by exact Hlen.
    unfold intelligible. fold (response_code chars) in Hrc.
    apply Z.ltb_lt in H2. rewrite H2.
    assert (Hb : (response_code chars =? 0x70)
                 || (response_code chars =? 0x71) = true).
    { apply orb_true_iff. destruct Hrc as [Hrc | Hrc];
        [left | right]; apply Z.eqb_eq; exact Hrc. }
    rewrite Hb. repeat split; try assumption; apply HD.
Qed.

Lemma int_from_sense_flags_and_key_witness :
  (decoded (H := bench_xscsi_h) [0x70; 0] 2 = Some (- 0x80000000))
  /\ exists r,
       decoded (H := bench_xscsi_h) [0x71; 0; 0x0B] 3 = Some r
       /\ has_flag 0x04000000 r
       /\ field 0x000F0000 r = 0x0B.
Proof.
  split.
  - refine (proj1 (proj1 (@int_from_sense_flags_and_key bench_xscsi_h
                            [0x70; 0] 2 bench_layout) _)).
    left. lia.
  - destruct (proj2 (@int_from_sense_flags_and_key bench_xscsi_h
                       [0x71; 0; 0x0B] 3 bench_layout))
      as [r (Hr & _ & _ & _ & HD & HK)].
    + cbn. lia.
    + right. reflexivity.
    + exists r. split; [exact Hr |]. split; [| exact HK].
      apply HD. discriminate.
Defined.

(** C6.  For intelligible sense of a length within the bytes: past 7
    bytes and with a nonzero additional length in byte 7 the effective
    length is the lesser of the length and 8 plus the additional length,
    else the length itself; byte xC is read, and is the ASC of the exit
    int, exactly when the effective length is above xC, and so byte xD for
    the ASCQ above xD; without them the field is zero.  The 14 bytes
    [70 00 05 00 00 00 00 0A 00 00 00 00 21 22] decode to the sense flag
    without the deferred flag, Sense Key 5, ASC x21 and ASCQ x22. *)
Theorem int_from_sense_asc_ascq `{xscsi_h} (chars : list Z) (length : Z) :
  exit_int_layout ->
  (2 < length <= Z.of_nat (List.length chars) ->
   Z.land (byte_of chars 0) 0x7F = 0x70
   \/ Z.land (byte_of chars 0) 0x7F = 0x71 ->
   exists r,
     decoded chars length = Some r
     /\ r = sense_bits chars length
     /\ (7 < length -> Z.land (byte_of chars 7) 0xFF <> 0 ->
         effective_length chars length
         = Z.min length (8 + Z.land (byte_of chars 7) 0xFF))
     /\ (length <= 7 \/ Z.land (byte_of chars 7) 0xFF = 0 ->
         effective_length chars length = length)
     /\ (In 0xC (indices_read chars length)
         <-> 0xC < effective_length chars length)
     /\ (In 0xD (indices_read chars length)
         <-> 0xD < effective_length chars length)
     /\ field SP_ASC r
        = (if 0xC <? effective_length chars length
           then Z.land (byte_of chars 0xC) 0xFF else 0)
     /\ field SP_ASCQ r
        = (if 0xD <? effective_length chars length
           then Z.land (byte_of chars 0xD) 0xFF else 0))
  /\ (exists r,
        decoded bench_sense 14 = Some r
        /\ has_flag SP_SENSE r
        /\ ~ has_flag SP_DEFERRED r
        /\ field SP_SK r = 5
        /\ field SP_ASC r = 0x21
        /\ field SP_ASCQ r = 0x22).
Proof.
  intros L. split.
  - intros [H2 Hlen] Hrc.
    exists (sense_bits chars length).
    destruct (sense_bits_fields L chars length)
      as (_ & _ & _ & _ & HA & HQ).
    assert (Hint : intelligible chars length = true).
    { unfold intelligible. fold (response_code chars) in Hrc.
      apply Z.ltb_lt in H2. rewrite H2.
      apply orb_true_iff. destruct Hrc as [Hrc | Hrc];
        [left | right]; apply Z.eqb_eq; exact Hrc. }
    assert (Hreads : indices_read chars length = sense_reads chars length).
    { unfold indices_read. rewrite int_from_sense_inside by exact Hlen.
      reflexivity. }
    split; [rewrite decoded_inside, Hint by exact Hlen; reflexivity |].
    split; [reflexivity |].
    split; [| split].
    + intros H7 Hal. unfold effective_length, additional_length.
      apply Z.ltb_lt in H7. apply Z.eqb_neq in Hal. rewrite H7, Hal.
      reflexivity.
    + intros Hno. unfold effective_length, additional_length.
      destruct Hno as [H7 | Hal].
      * apply Z.ltb_ge in H7. rewrite H7. reflexivity.
      * apply Z.eqb_eq in Hal. rewrite Hal, andb_false_r. reflexivity.
    + rewrite Hreads. unfold sense_reads.
      unfold intelligible in Hint. apply andb_true_iff in Hint.
      destruct Hint as [Hl Hr]. rewrite Hl, Hr.
      repeat split; try assumption.
      all: destruct (Z.ltb_spec 7 length);
        destruct (Z.ltb_spec 0xC (effective_length chars length));
        destruct (Z.ltb_spec 0xD (effective_length chars length));
        cbn [app In]; intros; try lia.
      all: repeat match goal with
                  | Hor : _ \/ _ |- _ => destruct Hor
                  end; try lia; try contradiction.
      all: auto 8.
  - exists (sense_bits bench_sense 14).
    destruct (sense_bits_fields L bench_sense 14)
      as (_ & HS & HD & HK & HA & HQ).
    split; [apply (decoded_inside bench_sense 14); cbn; lia |].
    split; [exact HS |].
    split; [intros HDef; apply HD in HDef; apply HDef; reflexivity |].
    split; [exact HK |]. split; [exact HA | exact HQ].
Qed.

Lemma int_from_sense_asc_ascq_witness :
  exists r,
    decoded (H := bench_xscsi_h)
      [0x70; 0; 0x05; 0; 0; 0; 0; 0x05; 0; 0; 0; 0; 0x21; 0x22] 14 = Some r
    /\ field 0x0000FF00 r = 0x21
    /\ field 0x000000FF r = 0.
Proof.
  destruct (proj1 (@int_from_sense_asc_ascq bench_xscsi_h
                     [0x70; 0; 0x05; 0; 0; 0; 0; 0x05; 0; 0; 0; 0; 0x21; 0x22]
                     14 bench_layout))
    as [r (Hr & _ & _ & _ & _ & _ & HA & HQ)].
  - cbn. lia.
  - left. reflexivity.
  - exists r. split; [exact Hr |]. split; [exact HA | exact HQ].
Defined.

(** C10.  Whatever the bytes and the length, the decoder asks for no index
    but 2, 0, 7, xC and xD, each below the length: for any at all the
    length is above 2, for 7 above 7, and xC and xD are below the effective
    length, which is at most the length.  With a length of at most 2 it
    asks for none.  With a length within the bytes every read succeeds. *)
Theorem int_from_sense_reads_inside `{xscsi_h}
    (chars : list Z) (length : Z) :
  (forall i, In i (indices_read chars length) ->
     2 < length
     /\ 0 <= i < length
     /\ (i = 0 \/ i = 2 \/ i = 7 \/ i = 0xC \/ i = 0xD)
     /\ (0xC <= i -> i < effective_length chars length))
  /\ effective_length chars length <= length
  /\ (length <= 2 -> indices_read chars length = [])
  /\ (length <= Z.of_nat (List.length chars) ->
      (exists r, decoded chars length = Some r)
      /\ forall i, In i (indices_read chars length) ->
           nth_error chars (Z.to_nat i) = Some (byte_of chars i)).
Proof.
  split; [| split; [| split]].
  - intros i. apply indices_read_cases.
  - unfold effective_length.
    destruct ((7 <? length) && negb (additional_length chars =? 0)); lia.
  - intros Hlen. unfold indices_read.
    rewrite decoded_short by exact Hlen. reflexivity.
  - intros Hlen. split.
    + eexists. apply decoded_inside. exact Hlen.
    + intros i Hi. apply indices_read_cases in Hi.
      destruct Hi as (_ & Hi & _). unfold byte_of.
      apply nth_error_nth'. lia.
Qed.

Lemma int_from_sense_reads_inside_witness :
  indices_read (H := bench_xscsi_h) bench_sense 2 = []
  /\ exists r, decoded (H := bench_xscsi_h) bench_sense 14 = Some r.
Proof.
  destruct (@int_from_sense_reads_inside bench_xscsi_h bench_sense 2)
    as (_ & _ & Hnone & _).
  destruct (@int_from_sense_reads_inside bench_xscsi_h bench_sense 14)
    as (_ & _ & _ & Hsome).
  split.
  - apply Hnone. lia.
  - apply Hsome. cbn. lia.
Defined.

(** ** Pass thru: the claims *)

(** Closed facts of runs on the bench. *)
Ltac by_running :=
  vm_compute; repeat split; first [reflexivity | discriminate].

(** C1.  When the driver returns nonnegative, leaves a residue from 0 to
    the length asked for and reports no trouble in [info], [sp_read] and
    [sp_write] return the residue itself: 0 when all was moved, else the
    count of bytes short.  Being nonnegative, it is no exit int made of the
    marker of failure, whatever is or'ed into the marker. *)
Theorem transfer_clean_residue `{xscsi_h} `{sg_h} `{sg_driver}
    (d : direction) (m : machine) (p : ptr) (max i : Z) (m' : machine) :
  int_range max ->
  ioctl_SG_IO (fd (the_sp m)) (spoken d m p max) = (i, m') ->
  0 <= i ->
  0 <= resid (sih (the_sp m')) <= max ->
  Z.land (info (sih (the_sp m'))) SG_INFO_OK_MASK = SG_INFO_OK ->
  transfer d m p max = Ret (resid (sih (the_sp m')), m')
  /\ (resid (sih (the_sp m')) = 0 -> transfer d m p max = Ret (0, m'))
  /\ (SP_THRU < 0 ->
      forall bits, resid (sih (the_sp m')) <> Z.lor SP_THRU bits).
Proof.
  intros Hmax Hio Hi Hres Hok.
  pose proof (transfer_clean d m p max i m' Hio Hmax Hi Hres Hok) as Hret.
  split; [exact Hret |]. split.
  - intros Hzero. rewrite Hret, Hzero. reflexivity.
  - intros Hneg bits Heq.
    assert (Hlt : Z.lor SP_THRU bits < 0) by (apply Z.lor_neg; left; exact Hneg).
    lia.
Qed.

Lemma transfer_clean_residue_witness :
  @sp_read bench_xscsi_h linux_sg_h (bench_driver 0 5 0 0)
    (bench_machine []) (caller 0) 20
  = Ret (5, bench_after from_dev [] 20 5 0 0).
Proof.
  refine (proj1 (@transfer_clean_residue bench_xscsi_h linux_sg_h
                   (bench_driver 0 5 0 0) from_dev (bench_machine [])
                   (caller 0) 20 0 (bench_after from_dev [] 20 5 0 0)
                   _ _ _ _ _)).
  - unfold int_range. lia.
  - reflexivity.
  - lia.
  - by_running.
  - reflexivity.
Defined.

(** C2.  When the driver returns negative, [sp_read] and [sp_write] return
    the bare marker [SP_THRU].  The decoder yields the same int for sense it
    cannot read, and so does a transfer the driver completed with all data
    moved and such sense: the exit int does not tell the two apart. *)
Theorem transfer_ioctl_failed `{xscsi_h} `{sg_h} `{sg_driver}
    (d : direction) (m : machine) (p : ptr) (max i : Z) (m' : machine) :
  ioctl_SG_IO (fd (the_sp m)) (spoken d m p max) = (i, m') ->
  i < 0 ->
  transfer d m p max = Ret (SP_THRU, m')
  /\ (forall chars length,
        unintelligible chars length -> decoded chars length = Some SP_THRU)
  /\ (forall d2 m2 p2 max2 i2 m2',
        int_range max2 ->
        ioctl_SG_IO (fd (the_sp m2)) (spoken d2 m2 p2 max2) = (i2, m2') ->
        0 <= i2 ->
        resid (sih (the_sp m2')) = 0 -> 0 <= max2 ->
        Z.land (info (sih (the_sp m2'))) SG_INFO_OK_MASK <> SG_INFO_OK ->
        0 <= sb_len_wr (sih (the_sp m2')) <= mx_sb_len (sih (the_sp m2)) ->
        unintelligible (bytes_at m2' (sbp (sih (the_sp m2))))
                       (sb_len_wr (sih (the_sp m2'))) ->
        transfer d2 m2 p2 max2 = Ret (SP_THRU, m2')).
Proof.
  intros Hio Hi. split; [| split].
  - apply (transfer_failed d m p max i m' Hio Hi).
  - intros chars length. apply decoded_unintelligible.
  - intros d2 m2 p2 max2 i2 m2' Hmax2 Hio2 Hi2 Hres Hpos Hun Hse Hsense.
    rewrite (transfer_sense d2 m2 p2 max2 i2 m2' Hio2 Hmax2 Hi2
               ltac:(lia) Hun Hse SP_THRU
               (decoded_unintelligible _ _ Hsense)).
    rewrite Hres, Z.lor_diag. reflexivity.
Qed.

Lemma transfer_ioctl_failed_witness :
  @sp_write bench_xscsi_h linux_sg_h (bench_driver (-1) 0 0 0)
    (bench_machine []) (caller 0) 20
  = Ret (- 0x80000000, bench_after to_dev [] 20 0 0 0).
Proof.
  refine (proj1 (@transfer_ioctl_failed bench_xscsi_h linux_sg_h
                   (bench_driver (-1) 0 0 0) to_dev (bench_machine [])
                   (caller 0) 20 (-1) (bench_after to_dev [] 20 0 0 0)
                   _ _)).
  - reflexivity.
  - lia.
Defined.

(** The driver failing, and the driver completing with all data moved and
    sense too short to read, end in the same exit int. *)
Example sp_read_failed_or_unintelligible :
  (exists m',
     @sp_read bench_xscsi_h linux_sg_h (bench_driver (-1) 0 0 0)
       (bench_machine [0x70; 0]) (caller 0) 20
     = Ret (- 0x80000000, m'))
  /\ (exists m',
        @sp_read bench_xscsi_h linux_sg_h (bench_driver 0 0 2 1)
          (bench_machine [0x70; 0]) (caller 0) 20
        = Ret (- 0x80000000, m')).
Proof. split; eexists; reflexivity. Qed.

(** C3.  When the driver returns nonnegative: with a residue below 0 or
    above the length asked for, [sp_read] and [sp_write] return the marker
    or'ed with [SP_DATA_THRU], whatever the residue; with a residue in
    range, trouble reported in [info] and a count of sense bytes below 0 or
    above the length of the sense buffer, they return the marker or'ed with
    [SP_SENSE_THRU]. *)
Theorem transfer_not_counted `{xscsi_h} `{sg_h} `{sg_driver}
    (d : direction) (m : machine) (p : ptr) (max i : Z) (m' : machine) :
  int_range max ->
  ioctl_SG_IO (fd (the_sp m)) (spoken d m p max) = (i, m') ->
  0 <= i ->
  (resid (sih (the_sp m')) < 0 \/ max < resid (sih (the_sp m')) ->
   transfer d m p max = Ret (Z.lor SP_THRU SP_DATA_THRU, m'))
  /\ (0 <= resid (sih (the_sp m')) <= max ->
      Z.land (info (sih (the_sp m'))) SG_INFO_OK_MASK <> SG_INFO_OK ->
      sb_len_wr (sih (the_sp m')) < 0
      \/ mx_sb_len (sih (the_sp m)) < sb_len_wr (sih (the_sp m')) ->
      transfer d m p max = Ret (Z.lor SP_THRU SP_SENSE_THRU, m')).
Proof.
  intros Hmax Hio Hi. split.
  - apply (transfer_data_thru d m p max i m' Hio Hmax Hi).
  - apply (transfer_sense_thru d m p max i m' Hio Hmax Hi).
Qed.

Lemma transfer_not_counted_witness :
  @sp_read bench_xscsi_h linux_sg_h (bench_driver 0 (-1) 0 0)
    (bench_machine []) (caller 0) 20
  = Ret (- 0x80000000 + 0x40000000, bench_after from_dev [] 20 (-1) 0 0)
  /\ @sp_read bench_xscsi_h linux_sg_h (bench_driver 0 0 19 1)
       (bench_machine []) (caller 0) 20
     = Ret (- 0x80000000 + 0x20000000, bench_after from_dev [] 20 0 19 1).
Proof.
  split.
  - refine (proj1 (@transfer_not_counted bench_xscsi_h linux_sg_h
                     (bench_driver 0 (-1) 0 0) from_dev (bench_machine [])
                     (caller 0) 20 0 (bench_after from_dev [] 20 (-1) 0 0)
                     _ _ _) _).
    + unfold int_range. lia.
    + reflexivity.
    + lia.
    + left. by_running.
  - refine (proj2 (@transfer_not_counted bench_xscsi_h linux_sg_h
                     (bench_driver 0 0 19 1) from_dev (bench_machine [])
                     (caller 0) 20 0 (bench_after from_dev [] 20 0 19 1)
                     _ _ _) _ _ _).
    + unfold int_range. lia.
    + reflexivity.
    + lia.
    + by_running.
    + by_running.
    + right. by_running.
Defined.

(** C4.  When the driver returns nonnegative, with a residue in range,
    trouble reported in [info] and a count of sense bytes from 0 to the
    length of the sense buffer, which holds that many bytes, the decoder
    runs on the sense buffer and the count, and [sp_read] and [sp_write]
    return the marker or'ed with what it decoded, and with [SP_RESIDUE]
    besides exactly when the residue is not 0. *)
Theorem transfer_sense_decoded `{xscsi_h} `{sg_h} `{sg_driver}
    (d : direction) (m : machine) (p : ptr) (max i : Z) (m' : machine) :
  int_range max ->
  ioctl_SG_IO (fd (the_sp m)) (spoken d m p max) = (i, m') ->
  0 <= i ->
  0 <= resid (sih (the_sp m')) <= max ->
  Z.land (info (sih (the_sp m'))) SG_INFO_OK_MASK <> SG_INFO_OK ->
  0 <= sb_len_wr (sih (the_sp m')) <= mx_sb_len (sih (the_sp m)) ->
  mx_sb_len (sih (the_sp m))
  <= Z.of_nat (List.length (bytes_at m' (sbp (sih (the_sp m))))) ->
  exists from_sense,
    decoded (bytes_at m' (sbp (sih (the_sp m))))
            (sb_len_wr (sih (the_sp m'))) = Some from_sense
    /\ (resid (sih (the_sp m')) = 0 ->
        transfer d m p max = Ret (Z.lor SP_THRU from_sense, m'))
    /\ (resid (sih (the_sp m')) <> 0 ->
        transfer d m p max
        = Ret (Z.lor (Z.lor SP_THRU from_sense) SP_RESIDUE, m')).
Proof.
  intros Hmax Hio Hi Hres Hun Hse Hbuf.
  assert (Hlen : sb_len_wr (sih (the_sp m'))
                 <= Z.of_nat
                      (List.length (bytes_at m' (sbp (sih (the_sp m))))))
    by lia.
  pose proof (decoded_inside _ _ Hlen) as Hdec.
  eexists. split; [exact Hdec |].
  pose proof (transfer_sense d m p max i m' Hio Hmax Hi Hres Hun Hse _
                Hdec) as Hret.
  split; intros Hr; rewrite Hret.
  - apply Z.eqb_eq in Hr. rewrite Hr. reflexivity.
  - apply Z.eqb_neq in Hr. rewrite Hr. reflexivity.
Qed.

Lemma transfer_sense_decoded_witness :
  @sp_read bench_xscsi_h linux_sg_h (bench_driver 0 5 14 1)
    (bench_machine (bench_sense ++ [0; 0; 0; 0])) (caller 0) 20
  = Ret (- 0x80000000 + 0x10000000 + 0x08000000 + 0x00050000
         + 0x00002100 + 0x22,
         bench_after from_dev (bench_sense ++ [0; 0; 0; 0]) 20 5 14 1).
Proof.
  destruct (@transfer_sense_decoded bench_xscsi_h linux_sg_h
              (bench_driver 0 5 14 1) from_dev
              (bench_machine (bench_sense ++ [0; 0; 0; 0]))
              (caller 0) 20 0
              (bench_after from_dev (bench_sense ++ [0; 0; 0; 0]) 20 5 14 1))
    as [from_sense (Hdec & _ & Hret)].
  - unfold int_range. lia.
  - reflexivity.
  - lia.
  - by_running.
  - by_running.
  - by_running.
  - by_running.
  - cbn in Hdec. injection Hdec as <-.
    apply Hret. cbn. discriminate.
Defined.

(** * Further properties *)

(** ** Connecting *)

Section Connecting.
Context {K : Type} `{sg_h} `{libc K}.

Variables (sp : struct_sp) (name : String.string) (w : process K).

Lemma sp_zero_returns :
  sp_zero sp = Ret {| sih := sih_fresh; fd := fd sp; sense := sense sp |}.
Proof. reflexivity. Qed.

(** X1.  Whenever [sp_open] returns, the request is the freshly zeroed
    one and the sense bytes are untouched, and the int returned tells the
    state of [sp->fd]: either it is not negative, is the descriptor [open]
    gave and now in [sp->fd], and the driver answered the ioctl with a
    version from 30000 on, or it is -1 and [sp->fd] is negative. *)
Theorem sp_open_returned (r : Z) (sp' : struct_sp) (w' : process K) :
  sp_open sp name w = Ret (r, sp', w') ->
  sih sp' = sih_fresh
  /\ sense sp' = sense sp
  /\ ((0 <= r
       /\ fd sp' = r
       /\ r = fst (os_open name (Z.lor O_RDONLY O_NONBLOCK) w)
       /\ exists i version,
            os_ioctl_version r 0
              (snd (os_open name (Z.lor O_RDONLY O_NONBLOCK) w))
            = (i, version, w')
            /\ 0 <= i /\ 30000 <= version)
      \/ (r = -1 /\ fd sp' < 0)).
Proof.
  unfold sp_open. rewrite sp_zero_returns.
  destruct (os_open name (Z.lor O_RDONLY O_NONBLOCK) w) as [fd0 w1].
  cbn [bind ret Monad_outcome fst snd].
  destruct (Z.leb_spec 0 fd0) as [Hfd | Hfd].
  - destruct (os_ioctl_version fd0 0 w1) as [[i version] w2] eqn:Hio.
    unfold sp_close. cbn [fd with_fd].
    destruct (os_close fd0 w2) as [c w3].
    destruct (Z.leb_spec 0 i) as [Hi | Hi];
      [destruct (Z.leb_spec 30000 version) as [Hv | Hv] |].
    + intros Hret. injection Hret as <- <- <-.
      repeat split. left. repeat split; try assumption.
      exists i, version. repeat split; assumption.
    + destruct (c =? 0); cbn; [| discriminate].
      intros Hret. injection Hret as <- <- <-.
      repeat split. right. split; [reflexivity | cbn; lia].
    + destruct (c =? 0); cbn; [| discriminate].
      intros Hret. injection Hret as <- <- <-.
      repeat split. right. split; [reflexivity | cbn; lia].
  - intros Hret. injection Hret as <- <- <-.
    repeat split. right. split; [reflexivity | cbn; lia].
Qed.

(** X2.  When [open] gives a descriptor but the ioctl fails or reports a
    version below 30000, [sp_open] closes that descriptor: if [close]
    returns 0 it returns -1 with [sp->fd] at -1, [errno] at [EINVAL] and
    the request freshly zeroed; if [close] returns anything else it leaves
    through [exit(-86)] and never returns. *)
Theorem sp_open_refused (fd0 i version c : Z) (w1 w2 w3 : process K) :
  os_open name (Z.lor O_RDONLY O_NONBLOCK) w = (fd0, w1) ->
  0 <= fd0 ->
  os_ioctl_version fd0 0 w1 = (i, version, w2) ->
  i < 0 \/ version < 30000 ->
  os_close fd0 w2 = (c, w3) ->
  (c = 0 ->
   sp_open sp name w
   = Ret (-1, {| sih := sih_fresh; fd := -1; sense := sense sp |},
          with_errno EINVAL w3))
  /\ (c <> 0 -> sp_open sp name w = Exited (-86)).
Proof.
  intros Hopen Hfd Hio Hold Hclose.
  unfold sp_open. rewrite sp_zero_returns, Hopen.
  cbn [bind ret Monad_outcome].
  apply Z.leb_le in Hfd. rewrite Hfd, Hio.
  unfold sp_close. cbn [fd with_fd]. rewrite Hclose.
  assert (Hgo : (if 0 <=? i then 30000 <=? version else false) = false).
  { destruct (Z.leb_spec 0 i); [| reflexivity]. apply Z.leb_gt. lia. }
  split; intros Hc.
  - subst c. cbn.
    destruct (0 <=? i); [destruct (30000 <=? version) |];
      try discriminate; reflexivity.
  - apply Z.eqb_neq in Hc. rewrite Hc. cbn.
    destruct (0 <=? i); [destruct (30000 <=? version) |];
      try discriminate; reflexivity.
Qed.

(** X3.  When [open] fails, [sp_open] returns -1 at once, with neither
    ioctl nor [close]: the process, [errno] with it, is as [open] left it,
    [sp->fd] holds the negative int of [open], and the request is freshly
    zeroed all the same. *)
Theorem sp_open_failed (fd0 : Z) (w1 : process K) :
  os_open name (Z.lor O_RDONLY O_NONBLOCK) w = (fd0, w1) ->
  fd0 < 0 ->
  sp_open sp name w
  = Ret (-1, {| sih := sih_fresh; fd := fd0; sense := sense sp |}, w1).
Proof.
  intros Hopen Hfd. unfold sp_open. rewrite sp_zero_returns, Hopen.
  cbn [bind ret Monad_outcome].
  apply Z.leb_gt in Hfd. rewrite Hfd. reflexivity.
Qed.

End Connecting.

Lemma sp_open_returned_witness :
  @sp_open nat linux_sg_h (bench_libc 3 0 0 30527 0)
    {| sih := sih_zeroed; fd := -1; sense := bench_sense |}
    bench_name {| errno := 0; kernel := 0%nat |}
  = Ret (3, {| sih := @sih_fresh linux_sg_h; fd := 3;
               sense := bench_sense |},
         {| errno := 0; kernel := 0%nat |})
  /\ fd {| sih := @sih_fresh linux_sg_h; fd := 3; sense := bench_sense |}
     = 3.
Proof.
  split; [reflexivity |].
  destruct (@sp_open_returned nat linux_sg_h (bench_libc 3 0 0 30527 0)
              {| sih := sih_zeroed; fd := -1; sense := bench_sense |}
              bench_name {| errno := 0; kernel := 0%nat |}
              3 {| sih := @sih_fresh linux_sg_h; fd := 3;
                   sense := bench_sense |}
              {| errno := 0; kernel := 0%nat |} eq_refl)
    as (_ & _ & [(_ & Hfd & _) | (Hr & _)]).
  - exact Hfd.
  - discriminate Hr.
Defined.

Lemma sp_open_refused_witness :
  @sp_open nat linux_sg_h (bench_libc 3 0 0 20000 0)
    {| sih := sih_zeroed; fd := -1; sense := bench_sense |}
    bench_name {| errno := 0; kernel := 0%nat |}
  = Ret (-1, {| sih := @sih_fresh linux_sg_h; fd := -1;
                sense := bench_sense |},
         {| errno := 22; kernel := 1%nat |}).
Proof.
  refine (proj1 (@sp_open_refused nat linux_sg_h (bench_libc 3 0 0 20000 0)
                   {| sih := sih_zeroed; fd := -1; sense := bench_sense |}
                   bench_name {| errno := 0; kernel := 0%nat |}
                   3 0 20000 0 _ _ _ eq_refl _ eq_refl _ eq_refl)
                eq_refl).
  - lia.
  - right. lia.
Defined.

Lemma sp_open_failed_witness :
  @sp_open nat linux_sg_h (bench_libc (-1) 2 0 0 0)
    {| sih := sih_zeroed; fd := 7; sense := bench_sense |}
    bench_name {| errno := 0; kernel := 0%nat |}
  = Ret (-1, {| sih := @sih_fresh linux_sg_h; fd := -1;
                sense := bench_sense |},
         {| errno := 2; kernel := 0%nat |}).
Proof.
  refine (@sp_open_failed nat linux_sg_h (bench_libc (-1) 2 0 0 0)
            {| sih := sih_zeroed; fd := 7; sense := bench_sense |}
            bench_name {| errno := 0; kernel := 0%nat |}
            (-1) _ eq_refl _).
  lia.
Defined.

(** ** The least significant set bit *)

Lemma odd_shift (p : positive) :
  exists a k, 0 <= k /\ Z.odd a = true /\ Z.pos p = a * 2 ^ k.
Proof.
  induction p as [p _ | p (a & k & Hk & Hodd & Hp) |].
  - exists (Z.pos p~1), 0. repeat split; [lia | lia].
  - exists a, (k + 1). split; [lia |]. split; [exact Hodd |].
    rewrite Z.pow_add_r by lia. change (2 ^ 1) with 2.
    change (Z.pos p~0) with (2 * Z.pos p). rewrite Hp. lia.
  - exists 1, 0. repeat split; lia.
Qed.

(** X4.  Of a nonzero [int] other than the least one, [lsb] keeps one bit
    and that is the lowest bit set in the mask: the result is [2 ^ k] for
    the [k] below 31 whose bit is set while every bit below it is clear.
    [lsb(0)] is 0. *)
Theorem lsb_least_set_bit (mask : Z) :
  - 2 ^ 31 < mask < 2 ^ 31 ->
  (mask = 0 -> lsb mask = 0)
  /\ (mask <> 0 ->
      exists k,
        0 <= k < 31
        /\ lsb mask = 2 ^ k
        /\ Z.testbit mask k = true
        /\ forall j, 0 <= j < k -> Z.testbit mask j = false).
Proof.
  intros Hrange. split; [intros ->; reflexivity |]. intros Hnz.
  assert (Hdec : exists a k, 0 <= k /\ Z.odd a = true /\ mask = a * 2 ^ k).
  { destruct mask as [| p | p]; [contradiction | apply odd_shift |].
    destruct (odd_shift p) as (a & k & Hk & Hodd & Hp).
    exists (- a), k. split; [exact Hk |]. split.
    - rewrite Z.odd_opp. exact Hodd.
    - change (Z.neg p) with (- Z.pos p). rewrite Hp. lia. }
  destruct Hdec as (a & k & Hk & Hodd & Hmask).
  assert (H2k : 0 < 2 ^ k) by (apply Z.pow_pos_nonneg; lia).
  assert (Hk31 : k < 31).
  { assert (Ha : a <> 0) by (intros ->; discriminate Hodd).
    apply (proj2 (Z.pow_lt_mono_r_iff 2 k 31 ltac:(lia) ltac:(lia))).
    nia. }
  exists k. split; [lia |]. split; [| split].
  - unfold lsb, int_neg. rewrite sint32_id by (unfold int_range; lia).
    rewrite Hmask, <- Z.mul_opp_l.
    rewrite <- !Z.shiftl_mul_pow2 by exact Hk.
    rewrite <- Z.shiftl_land, land_odd_opp by exact Hodd.
    rewrite Z.shiftl_mul_pow2 by exact Hk. lia.
  - rewrite Hmask, Z.mul_pow2_bits by exact Hk.
    rewrite Z.sub_diag, Z.bit0_odd. exact Hodd.
  - intros j Hj. rewrite Hmask. apply Z.mul_pow2_bits_low. lia.
Qed.

Lemma lsb_least_set_bit_witness :
  exists k, 0 <= k < 31 /\ lsb 0x000F0000 = 2 ^ k
            /\ Z.testbit 0x000F0000 k = true.
Proof.
  destruct (proj2 (lsb_least_set_bit 0x000F0000 ltac:(lia)))
    as (k & Hk & Hlsb & Hbit & _).
  - discriminate.
  - exists k. repeat split; try assumption; lia.
Defined.

(** ** Pass thru: reading the exit int back *)

Lemma marker_kept (t x : Z) : has_flag t (Z.lor t x).
Proof.
  unfold has_flag. apply Z.bits_inj'. intros n _.
  rewrite Z.land_spec, Z.lor_spec.
  destruct (Z.testbit t n), (Z.testbit x n); reflexivity.
Qed.

Lemma marker_negative (t r : Z) : t < 0 -> has_flag t r -> r < 0.
Proof.
  unfold has_flag. intros Ht Hr.
  assert (Hneg : Z.land r t < 0) by lia.
  apply Z.land_neg in Hneg. lia.
Qed.

(** X5.  "Return zero else positive residue else negative trouble": a
    transfer never leaves through [exit], and when it returns it hands back
    the machine as the driver left it and either the residue, from 0 to the
    length asked for, after a driver that returned nonnegative and reported
    no trouble, or else an int with every bit of the marker set, which is
    negative when the marker is. *)
Theorem transfer_exit_int `{xscsi_h} `{sg_h} `{sg_driver}
    (d : direction) (m : machine) (p : ptr) (max i : Z) (m' : machine) :
  int_range max ->
  ioctl_SG_IO (fd (the_sp m)) (spoken d m p max) = (i, m') ->
  (forall status, transfer d m p max <> Exited status)
  /\ forall r m1,
       transfer d m p max = Ret (r, m1) ->
       m1 = m'
       /\ ((0 <= i
            /\ Z.land (info (sih (the_sp m'))) SG_INFO_OK_MASK = SG_INFO_OK
            /\ r = resid (sih (the_sp m'))
            /\ 0 <= r <= max)
           \/ (has_flag SP_THRU r /\ (SP_THRU < 0 -> r < 0))).
Proof.
  intros Hmax Hio.
  assert (Hbad : forall x, has_flag SP_THRU (Z.lor SP_THRU x)
                           /\ (SP_THRU < 0 -> Z.lor SP_THRU x < 0)).
  { intros x. split; [apply marker_kept |].
    intros Ht.
    apply (marker_negative SP_THRU); [exact Ht | apply marker_kept]. }
  assert (Hthru : has_flag SP_THRU SP_THRU /\ (SP_THRU < 0 -> SP_THRU < 0)).
  { split; [apply Z.land_diag | trivial]. }
  destruct (Z.ltb_spec i 0) as [Hi | Hi].
  { rewrite (transfer_failed d m p max i m' Hio Hi).
    split; [discriminate |]. intros r m1 Hret. injection Hret as <- <-.
    split; [reflexivity | right; exact Hthru]. }
  destruct (Z.ltb_spec (resid (sih (the_sp m'))) 0) as [Hlo | Hlo].
  { rewrite (transfer_data_thru d m p max i m' Hio Hmax Hi (or_introl Hlo)).
    split; [discriminate |]. intros r m1 Hret. injection Hret as <- <-.
    split; [reflexivity | right; apply Hbad]. }
  destruct (Z.ltb_spec max (resid (sih (the_sp m')))) as [Hhi | Hhi].
  { rewrite (transfer_data_thru d m p max i m' Hio Hmax Hi (or_intror Hhi)).
    split; [discriminate |]. intros r m1 Hret. injection Hret as <- <-.
    split; [reflexivity | right; apply Hbad]. }
  rewrite (transfer_counted d m p max i m' Hio Hmax Hi (conj Hlo Hhi)).
  destruct (Z.eqb_spec (Z.land (info (sih (the_sp m'))) SG_INFO_OK_MASK)
                       SG_INFO_OK) as [Hok | Hun];
    cbv beta iota delta [negb].
  { split; [discriminate |]. intros r m1 Hret. injection Hret as <- <-.
    split; [reflexivity |]. left. repeat split; assumption. }
  destruct ((sb_len_wr (sih (the_sp m')) <? 0)
            || (mx_sb_len (sih (the_sp m)) <? sb_len_wr (sih (the_sp m')))).
  { split; [discriminate |]. intros r m1 Hret. injection Hret as <- <-.
    split; [reflexivity | right; apply Hbad]. }
  destruct (decoded (bytes_at m' (sbp (sih (the_sp m))))
                    (sb_len_wr (sih (the_sp m')))) as [from_sense |].
  - split; [discriminate |]. intros r m1 Hret. injection Hret as <- <-.
    split; [reflexivity |]. right.
    match goal with
    | |- context [if ?b then _ else _] => destruct b
    end; [| apply Hbad].
    rewrite <- Z.lor_assoc. apply Hbad.
  - split; discriminate.
Qed.

Lemma transfer_exit_int_witness :
  @sp_read bench_xscsi_h linux_sg_h (bench_driver 0 50 14 1)
    (bench_machine bench_sense) (caller 0) 20
  = Ret (- 0x80000000 + 0x40000000,
         bench_after from_dev bench_sense 20 50 14 1)
  /\ - 0x80000000 + 0x40000000 < 0.
Proof.
  split; [reflexivity |].
  destruct (proj2 (@transfer_exit_int bench_xscsi_h linux_sg_h
                     (bench_driver 0 50 14 1) from_dev
                     (bench_machine bench_sense) (caller 0) 20 0
                     (bench_after from_dev bench_sense 20 50 14 1)
                     ltac:(unfold int_range; lia) eq_refl)
                  (- 0x80000000 + 0x40000000)
                  (bench_after from_dev bench_sense 20 50 14 1) eq_refl)
    as (_ & [(_ & Hclean & _) | (_ & Hneg)]).
  - discriminate Hclean.
  - apply Hneg. reflexivity.
Defined.

(** X6.  After a transfer that returned a residue, with the driver having
    left the length of the request alone, [sp_data_enough] is the length
    asked for less the residue: the bytes copied and the bytes short add up
    to the length. *)
Theorem transfer_data_enough `{xscsi_h} `{sg_h} `{sg_driver}
    (d : direction) (m : machine) (p : ptr) (max i : Z) (m' : machine) :
  int_range max ->
  ioctl_SG_IO (fd (the_sp m)) (spoken d m p max) = (i, m') ->
  0 <= i ->
  0 <= resid (sih (the_sp m')) <= max ->
  Z.land (info (sih (the_sp m'))) SG_INFO_OK_MASK = SG_INFO_OK ->
  dxfer_len (sih (the_sp m')) = dxfer_len (sih (the_sp (spoken d m p max))) ->
  exists r,
    transfer d m p max = Ret (r, m')
    /\ sp_data_enough (the_sp m') + r = max
    /\ 0 <= sp_data_enough (the_sp m') <= max.
Proof.
  intros Hmax Hio Hi Hres Hok Hlen.
  exists (resid (sih (the_sp m'))).
  split; [apply (transfer_clean d m p max i m' Hio Hmax Hi Hres Hok) |].
  assert (Henough : sp_data_enough (the_sp m')
                    = max - resid (sih (the_sp m'))).
  { unfold sp_data_enough. rewrite Hlen.
    replace (dxfer_len (sih (the_sp (spoken d m p max))))
      with (uint32 max) by reflexivity.
    unfold uint32. rewrite Zminus_mod_idemp_l.
    apply sint32_uint32. unfold int_range in *. lia. }
  rewrite Henough. lia.
Qed.

Lemma transfer_data_enough_witness :
  sp_data_enough (the_sp (bench_after from_dev [] 20 5 0 0)) + 5 = 20.
Proof.
  destruct (@transfer_data_enough bench_xscsi_h linux_sg_h
              (bench_driver 0 5 0 0) from_dev (bench_machine [])
              (caller 0) 20 0 (bench_after from_dev [] 20 5 0 0))
    as (r & Hret & Hsum & _).
  - unfold int_range. lia.
  - reflexivity.
  - lia.
  - vm_compute. split; discriminate.
  - reflexivity.
  - reflexivity.
  - vm_compute in Hret. injection Hret as <-. exact Hsum.
Defined.

(** ** The sense decoder: what it depends on *)

(** X7.  The decoder looks at nothing from the valid length on: two
    buffers that hold the same bytes below the length, whatever lies
    beyond, decode alike and are read at the same indices. *)
Theorem int_from_sense_prefix `{xscsi_h}
    (chars chars' : list Z) (length : Z) :
  length <= Z.of_nat (List.length chars) ->
  length <= Z.of_nat (List.length chars') ->
  (forall i, 0 <= i < length -> byte_of chars i = byte_of chars' i) ->
  int_from_sense length chars = int_from_sense length chars'.
Proof.
  intros Hlen Hlen' Hsame.
  rewrite !int_from_sense_inside by assumption.
  unfold intelligible, sense_bits, sense_reads, effective_length,
    additional_length, response_code, sense_key.
  destruct (Z.ltb_spec 2 length) as [H2 | H2]; [| reflexivity].
  rewrite <- (Hsame 0), <- (Hsame 2) by lia.
  cbn [andb].
  destruct ((Z.land (byte_of chars 0) 127 =? 112)
            || (Z.land (byte_of chars 0) 127 =? 113)); [| reflexivity].
  destruct (Z.ltb_spec 7 length) as [H7 | H7].
  - rewrite <- (Hsame 7) by lia. cbn [andb].
    pose proof (land_byte (byte_of chars 7)) as Hal.
    destruct (negb (Z.land (byte_of chars 7) 255 =? 0)).
    + set (al := Z.land (byte_of chars 7) 255) in *.
      destruct (Z.ltb_spec 0xC (Z.min length (8 + al)));
        destruct (Z.ltb_spec 0xD (Z.min length (8 + al)));
        rewrite <- ?(Hsame 0xC), <- ?(Hsame 0xD) by lia; reflexivity.
    + destruct (Z.ltb_spec 0xC length); destruct (Z.ltb_spec 0xD length);
        rewrite <- ?(Hsame 0xC), <- ?(Hsame 0xD) by lia; reflexivity.
  - cbn [andb].
    destruct (Z.ltb_spec 0xC length); [lia |].
    destruct (Z.ltb_spec 0xD length); [lia |]. reflexivity.
Qed.

Lemma int_from_sense_prefix_witness :
  int_from_sense (H := bench_xscsi_h) 3 [0x70; 0; 0x05; 0xAA; 0xBB]
  = int_from_sense (H := bench_xscsi_h) 3 [0x70; 0; 0x05].
Proof.
  apply (@int_from_sense_prefix bench_xscsi_h).
  - vm_compute. discriminate.
  - vm_compute. discriminate.
  - intros i Hi.
    assert (Hcases : i = 0 \/ i = 1 \/ i = 2) by lia.
    destruct Hcases as [-> | [-> | ->]]; reflexivity.
Defined.

(** ** Pass thru: what the flags tell *)

Lemma decoded_some `{xscsi_h} (chars : list Z) (length r : Z) :
  decoded chars length = Some r ->
  r = if intelligible chars length then sense_bits chars length else SP_THRU.
Proof.
  unfold decoded, int_from_sense, intelligible, sense_bits,
    effective_length, additional_length, response_code, sense_key.
  pose proof (land_byte (byte_of chars 7)) as Hal.
  repeat decode_step.
  all: cbn [negb andb orb fst] in *.
  all: intros Hr; try discriminate Hr; injection Hr as <-.
  all: rewrite ?Z.lor_0_r.
  all: try reflexivity.
  all: lia.
Qed.

Section Flags.
Context `{xscsi_h}.
Hypothesis layout : exit_int_layout.

(** The flags of the transfer are no part of decoded sense. *)
Lemma sense_bits_flags (chars : list Z) (length : Z) :
  Z.land (sense_bits chars length) SP_DATA_THRU = 0
  /\ Z.land (sense_bits chars length) SP_SENSE_THRU = 0
  /\ Z.land (sense_bits chars length) SP_RESIDUE = 0.
Proof.
  destruct layout as [_ Hflags Hsk Hasc Hascq Hapart].
  assert (Hkey : 0 <= sense_key chars < 2 ^ 4).
  { unfold sense_key.
    change (Z.land (byte_of chars 2) 0x0F)
      with (Z.land (byte_of chars 2) (Z.ones 4)).
    rewrite Z.land_ones by lia. apply Z.mod_pos_bound. lia. }
  pose proof (land_byte (byte_of chars 0xC)) as HbC.
  pose proof (land_byte (byte_of chars 0xD)) as HbD.
  destruct (placed 4 SP_SK (sense_key chars) ltac:(lia) Hsk Hkey)
    as (HKin & _).
  destruct (placed 8 SP_ASC (Z.land (byte_of chars 0xC) 0xFF)
              ltac:(lia) Hasc ltac:(lia)) as (HAin & _).
  destruct (placed 8 SP_ASCQ (Z.land (byte_of chars 0xD) 0xFF)
              ltac:(lia) Hascq ltac:(lia)) as (HQin & _).
  unfold sense_bits.
  set (K := int_mul (sense_key chars) (lsb SP_SK)) in *.
  set (A := int_mul (Z.land (byte_of chars 0xC) 0xFF) (lsb SP_ASC)) in *.
  set (Q := int_mul (Z.land (byte_of chars 0xD) 0xFF) (lsb SP_ASCQ)) in *.
  layout_equations Hapart.
  repeat match goal with
         | Hin : Z.land ?P ?M = ?P, Hx : Z.land ?M ?X = 0 |- _ =>
             lazymatch goal with
             | _ : Z.land P X = 0 |- _ => fail
             | _ => pose proof (inside_apart P M X Hin Hx)
             end
         end.
  clearbody K A Q.
  destruct (response_code chars =? 0x70);
    destruct (0xC <? effective_length chars length);
    destruct (0xD <? effective_length chars length).
  all: rewrite !Z.land_lor_distr_l.
  all: rewrite_lands.
  all: rewrite ?Z.land_0_l, ?Z.lor_0_r.
  all: repeat split; reflexivity.
Qed.

End Flags.

(** X8.  Under the layout of the exit int, a returned int with the marker
    set tells what went wrong, flag by flag: [SP_DATA_THRU] is set exactly
    when the driver returned nonnegative with a residue out of range,
    [SP_SENSE_THRU] exactly when the residue was in range and the count of
    sense bytes out of range, [SP_SENSE] exactly when both were in range
    and the sense is intelligible, and [SP_RESIDUE] exactly when both were
    in range and the residue is not 0. *)
Theorem transfer_flags `{xscsi_h} `{sg_h} `{sg_driver}
    (d : direction) (m : machine) (p : ptr) (max i r : Z) (m' : machine) :
  exit_int_layout ->
  int_range max ->
  ioctl_SG_IO (fd (the_sp m)) (spoken d m p max) = (i, m') ->
  transfer d m p max = Ret (r, m') ->
  has_flag SP_THRU r ->
  (has_flag SP_DATA_THRU r
   <-> 0 <= i /\ ~ 0 <= resid (sih (the_sp m')) <= max)
  /\ (has_flag SP_SENSE_THRU r
      <-> 0 <= i /\ 0 <= resid (sih (the_sp m')) <= max
          /\ ~ 0 <= sb_len_wr (sih (the_sp m'))
                 <= mx_sb_len (sih (the_sp m)))
  /\ (has_flag SP_SENSE r
      <-> 0 <= i /\ 0 <= resid (sih (the_sp m')) <= max
          /\ 0 <= sb_len_wr (sih (the_sp m')) <= mx_sb_len (sih (the_sp m))
          /\ intelligible (bytes_at m' (sbp (sih (the_sp m))))
                          (sb_len_wr (sih (the_sp m'))) = true)
  /\ (has_flag SP_RESIDUE r
      <-> 0 <= i /\ 0 < resid (sih (the_sp m')) <= max
          /\ 0 <= sb_len_wr (sih (the_sp m'))
               <= mx_sb_len (sih (the_sp m))).
Proof.
  intros L Hmax Hio Hret Hmark.
  pose proof (sense_bits_flags L) as Hbits.
  pose proof (sense_bits_fields L) as Hfields.
  destruct L as [Hneg Hflags _ _ _ Hapart].
  layout_equations Hapart.
  assert (Hr : r < 0) by (apply (marker_negative SP_THRU); assumption).
  clear Hmark.
  destruct (Z.ltb_spec i 0) as [Hi | Hi].
  { rewrite (transfer_failed d m p max i m' Hio Hi) in Hret.
    injection Hret as <-. unfold has_flag. rewrite_lands.
    repeat split; intros; try lia; congruence. }
  destruct (Z.ltb_spec (resid (sih (the_sp m'))) 0) as [Hlo | Hlo].
  { rewrite (transfer_data_thru d m p max i m' Hio Hmax Hi (or_introl Hlo))
      in Hret.
    injection Hret as <-. unfold has_flag.
    rewrite !Z.land_lor_distr_l. rewrite_lands.
    rewrite ?Z.land_diag, ?Z.lor_0_l, ?Z.lor_0_r.
    repeat split; intros; try lia; congruence. }
  destruct (Z.ltb_spec max (resid (sih (the_sp m')))) as [Hhi | Hhi].
  { rewrite (transfer_data_thru d m p max i m' Hio Hmax Hi (or_intror Hhi))
      in Hret.
    injection Hret as <-. unfold has_flag.
    rewrite !Z.land_lor_distr_l. rewrite_lands.
    rewrite ?Z.land_diag, ?Z.lor_0_l, ?Z.lor_0_r.
    repeat split; intros; try lia; congruence. }
  rewrite (transfer_counted d m p max i m' Hio Hmax Hi (conj Hlo Hhi))
    in Hret.
  destruct (negb (Z.land (info (sih (the_sp m'))) SG_INFO_OK_MASK
                  =? SG_INFO_OK)).
  2: { injection Hret as <-. lia. }
  destruct (Z.ltb_spec (sb_len_wr (sih (the_sp m'))) 0) as [Hslo | Hslo];
    [| destruct (Z.ltb_spec (mx_sb_len (sih (the_sp m)))
                            (sb_len_wr (sih (the_sp m')))) as [Hshi | Hshi]];
    cbn [orb] in Hret.
  1, 2: injection Hret as <-; unfold has_flag;
    rewrite !Z.land_lor_distr_l; rewrite_lands;
    rewrite ?Z.land_diag, ?Z.lor_0_l, ?Z.lor_0_r;
    repeat split; intros; try lia; congruence.
  destruct (decoded (bytes_at m' (sbp (sih (the_sp m))))
                    (sb_len_wr (sih (the_sp m')))) as [from_sense |] eqn:Hdec;
    [| discriminate Hret].
  apply decoded_some in Hdec.
  specialize (Hbits (bytes_at m' (sbp (sih (the_sp m))))
                    (sb_len_wr (sih (the_sp m')))).
  specialize (Hfields (bytes_at m' (sbp (sih (the_sp m))))
                      (sb_len_wr (sih (the_sp m')))).
  destruct Hbits as (HbD & HbS & HbR).
  destruct Hfields as (_ & HfS & _).
  unfold has_flag in HfS.
  set (bits := sense_bits (bytes_at m' (sbp (sih (the_sp m))))
                          (sb_len_wr (sih (the_sp m')))) in *.
  clearbody bits.
  destruct (intelligible (bytes_at m' (sbp (sih (the_sp m))))
                         (sb_len_wr (sih (the_sp m'))));
    subst from_sense.
  all: destruct (Z.eqb_spec 0 (resid (sih (the_sp m')))) as [Hz | Hnz];
    cbn [negb] in Hret; injection Hret as <-; unfold has_flag;
    rewrite !Z.land_lor_distr_l; rewrite_lands;
    rewrite ?Z.land_diag, ?Z.lor_0_l, ?Z.lor_0_r;
    repeat split; intros; try lia; try congruence.
Qed.

Lemma transfer_flags_witness :
  has_flag 0x08000000
    (- 0x80000000 + 0x10000000 + 0x08000000 + 0x00050000 + 0x00002100 + 0x22)
  /\ has_flag 0x10000000
       (- 0x80000000 + 0x10000000 + 0x08000000 + 0x00050000 + 0x00002100
        + 0x22).
Proof.
  destruct (@transfer_flags bench_xscsi_h linux_sg_h (bench_driver 0 5 14 1)
              from_dev (bench_machine (bench_sense ++ [0; 0; 0; 0]))
              (caller 0) 20 0
              (- 0x80000000 + 0x10000000 + 0x08000000 + 0x00050000
               + 0x00002100 + 0x22)
              (bench_after from_dev (bench_sense ++ [0; 0; 0; 0]) 20 5 14 1)
              bench_layout)
    as (_ & _ & HS & HR).
  - unfold int_range. lia.
  - reflexivity.
  - reflexivity.
  - reflexivity.
  - split.
    + apply HS. vm_compute. repeat split; discriminate.
    + apply HR. vm_compute. repeat split; discriminate.
Defined.

(** ** Time out: what is accepted, what is returned *)

(** X9.  For seconds and nanoseconds from 0 on, [sp_late] returns exactly
    when the nanoseconds are at most 999000000 and the milliseconds, [s]
    times 1000 plus the nanoseconds rounded up, are at most the greatest
    [int]; otherwise it leaves through [exit(-165)].  So the last 999999
    nanoseconds of a second, which round up to a whole second, are never
    accepted. *)
Theorem sp_late_accepts (sp : struct_sp) (s ns : Z) :
  int_range s -> int_range ns -> 0 <= s -> 0 <= ns ->
  (ns <= 999000000 /\ s * 1000 + ceil_div ns 1000000 <= 2 ^ 31 - 1 ->
   exists r,
     sp_late sp s ns
     = Ret (with_sih (set_timeout (s * 1000 + ceil_div ns 1000000)) sp, r))
  /\ (999000000 < ns \/ 2 ^ 31 - 1 < s * 1000 + ceil_div ns 1000000 ->
      sp_late sp s ns = Exited (-165)).
Proof.
  intros Hs Hns Hs0 Hns0.
  destruct (sp_late_ms s ns Hs Hns ltac:(lia)) as [Hiff Hms].
  cbv zeta in Hiff, Hms.
  assert (Hceil : 0 <= ceil_div ns 1000000
                  /\ (ns <= 999000000 <-> ceil_div ns 1000000 <= 999)).
  { unfold ceil_div. Z.div_mod_to_equations. lia. }
  split.
  - intros [Hlate Hfit].
    assert (Hacc : int_range (s * 1000 + ceil_div ns 1000000)
                   /\ Z.quot (s * 1000 + ceil_div ns 1000000) 1000 = s).
    { split; [unfold int_range; lia |]. Z.quot_rem_to_equations. lia. }
    apply Hiff in Hacc. specialize (Hms Hacc).
    unfold sp_late. rewrite Hacc, Z.eqb_refl, Hms. cbn [negb].
    unfold uint32. rewrite Z.mod_small by lia.
    eexists. reflexivity.
  - intros Hout. unfold sp_late.
    destruct (Z.eqb_spec
                (int_div
                   (int_add (int_mul s 1000)
                      (int_div (int_div (int_add ns 999999) 1000) 1000))
                   1000) s) as [Heq | Hne]; [| reflexivity].
    apply Hiff in Heq. destruct Heq as [Hrange Hquot].
    exfalso. unfold int_range in Hrange.
    Z.quot_rem_to_equations. lia.
Qed.

Lemma sp_late_accepts_witness :
  sp_late {| sih := sih_zeroed; fd := 3; sense := [] |} 1 999999999
  = Exited (-165).
Proof.
  refine (proj2 (sp_late_accepts
                   {| sih := sih_zeroed; fd := 3; sense := [] |}
                   1 999999999 _ _ _ _) _).
  - unfold int_range. lia.
  - unfold int_range. lia.
  - lia.
  - lia.
  - left. lia.
Defined.

(** X10.  For seconds and nanoseconds from 0 on, the int [sp_late] returns
    is the nanoseconds it was given rounded up to whole milliseconds: at
    least the nanoseconds given, less than a millisecond above them, and a
    multiple of one million. *)
Theorem sp_late_returns_rounded (sp sp' : struct_sp) (s ns r : Z) :
  int_range s -> int_range ns -> 0 <= s -> 0 <= ns ->
  sp_late sp s ns = Ret (sp', r) ->
  r = ceil_div ns 1000000 * 1000000
  /\ ns <= r < ns + 1000000
  /\ timeout (sih sp') * 1000000 = s * 1000000000 + r.
Proof.
  intros Hs Hns Hs0 Hns0 Hret.
  destruct (sp_late_ms s ns Hs Hns ltac:(lia)) as [Hiff Hms].
  cbv zeta in Hiff, Hms.
  unfold sp_late in Hret.
  destruct (Z.eqb_spec
              (int_div
                 (int_add (int_mul s 1000)
                    (int_div (int_div (int_add ns 999999) 1000) 1000))
                 1000) s) as [Heq | Hne]; [| discriminate Hret].
  cbn [negb] in Hret. rewrite (Hms Heq) in Hret.
  apply Hiff in Heq. destruct Heq as [Hrange Hquot].
  unfold int_range in Hrange.
  assert (Hceil : 0 <= ceil_div ns 1000000 <= 999
                  /\ ns <= ceil_div ns 1000000 * 1000000 < ns + 1000000).
  { split.
    - Z.quot_rem_to_equations. unfold ceil_div in *.
      Z.div_mod_to_equations. lia.
    - unfold ceil_div. Z.div_mod_to_equations. lia. }
  cbn [bind ret Monad_outcome] in Hret.
  injection Hret as <- <-. cbn [timeout sih with_sih set_timeout].
  assert (Hu : uint32 (s * 1000 + ceil_div ns 1000000)
               = s * 1000 + ceil_div ns 1000000)
    by (unfold uint32; apply Z.mod_small; lia).
  rewrite !Hu, !sp_late_ns by lia.
  assert (Hmod : (s * 1000 + ceil_div ns 1000000) mod 1000
                 = ceil_div ns 1000000).
  { rewrite Z.add_comm, Z.mod_add by lia. apply Z.mod_small. lia. }
  rewrite Hmod. repeat split; lia.
Qed.

Lemma sp_late_returns_rounded_witness :
  2000000 = ceil_div 1500000 1000000 * 1000000
  /\ 1500000 <= 2000000 < 1500000 + 1000000.
Proof.
  destruct (sp_late_returns_rounded
              {| sih := sih_zeroed; fd := 3; sense := [] |}
              (with_sih (set_timeout 2002)
                 {| sih := sih_zeroed; fd := 3; sense := [] |})
              2 1500000 2000000)
    as (Hr & Hbounds & _).
  - unfold int_range. lia.
  - unfold int_range. lia.
  - lia.
  - lia.
  - reflexivity.
  - split; assumption.
Defined.

(** ** From connecting to the pass thru *)

Lemma sp_open_connected {K : Type} `{sg_h} `{libc K}
    (sp : struct_sp) (name : String.string) (w : process K)
    (r : Z) (sp' : struct_sp) (w' : process K) :
  sp_open sp name w = Ret (r, sp', w') -> 0 <= r ->
  sp' = {| sih := sih_fresh; fd := r; sense := sense sp |}.
Proof.
  unfold sp_open. rewrite sp_zero_returns.
  destruct (os_open name (Z.lor O_RDONLY O_NONBLOCK) w) as [fd0 w1].
  cbn [bind ret Monad_outcome].
  destruct (0 <=? fd0).
  - destruct (os_ioctl_version fd0 0 w1) as [[i version] w2].
    unfold sp_close. cbn [fd with_fd].
    destruct (os_close fd0 w2) as [c w3].
    destruct (0 <=? i); [destruct (30000 <=? version) |];
      destruct (c =? 0); cbn; intros Hret Hr;
      try discriminate Hret; injection Hret as <- <- <-;
      try lia; reflexivity.
  - intros Hret Hr. injection Hret as <- <- <-. lia.
Qed.

(** X11.  A session that connected, took a CDB of [n] bytes and starts a
    transfer of [max] bytes speaks to the driver through the descriptor
    [sp_open] returned, with a request that holds the CDB, the data and the
    direction of the transfer, the sense buffer of 18 bytes inside the
    struct and the time out of 28 hours, and in which all that the driver
    is to fill in, the counts, the statuses and the info, is zero. *)
Theorem connected_request {K : Type}
    `{xscsi_h} `{sg_h} `{sg_driver} `{libc K}
    (sp : struct_sp) (name : String.string) (w : process K)
    (r : Z) (sp1 : struct_sp) (w1 : process K)
    (cdb to : ptr) (n max : Z) (d : direction) (b : nat -> list Z) :
  sp_open sp name w = Ret (r, sp1, w1) ->
  0 <= r ->
  0 <= n <= 255 ->
  exists sp2 m,
    sp_cdb sp1 cdb n = Ret (sp2, cdb)
    /\ transfer d {| the_sp := sp2; buffers := b |} to max = sp_speak m
    /\ m = spoken d {| the_sp := sp2; buffers := b |} to max
    /\ fd (the_sp m) = r
    /\ sense (the_sp m) = sense sp
    /\ buffers m = b
    /\ sih (the_sp m)
       = set_dxfer_direction (sg_dxfer d)
           (set_dxfer (uint32 max) to (set_cmd n cdb sih_fresh))
    /\ (cmdp (sih (the_sp m)) = cdb /\ cmd_len (sih (the_sp m)) = n)
    /\ (sbp (sih (the_sp m)) = own_sense
        /\ mx_sb_len (sih (the_sp m)) = 18)
    /\ timeout (sih (the_sp m)) = 28 * 60 * 60 * 1000
    /\ (sb_len_wr (sih (the_sp m)) = 0 /\ resid (sih (the_sp m)) = 0
        /\ info (sih (the_sp m)) = 0 /\ status (sih (the_sp m)) = 0
        /\ masked_status (sih (the_sp m)) = 0
        /\ msg_status (sih (the_sp m)) = 0
        /\ host_status (sih (the_sp m)) = 0
        /\ driver_status (sih (the_sp m)) = 0
        /\ duration (sih (the_sp m)) = 0)
    /\ (iovec_count (sih (the_sp m)) = 0 /\ flags (sih (the_sp m)) = 0
        /\ pack_id (sih (the_sp m)) = 0 /\ usr_ptr (sih (the_sp m)) = NULL).
Proof.
  intros Hopen Hr Hn.
  apply sp_open_connected in Hopen; [| exact Hr]. subst sp1.
  exists (with_sih (set_cmd n cdb)
            {| sih := sih_fresh; fd := r; sense := sense sp |}).
  eexists. split; [| split; [| split; [reflexivity |]]].
  - unfold sp_cdb. apply uint8_fits in Hn. rewrite Hn, Z.eqb_refl.
    reflexivity.
  - destruct d; reflexivity.
  - repeat split.
Qed.

Lemma connected_request_witness :
  exists sp2 m,
    sp_cdb {| sih := @sih_fresh linux_sg_h; fd := 3; sense := bench_sense |}
      (caller 1) 6
    = Ret (sp2, caller 1)
    /\ @transfer bench_xscsi_h linux_sg_h (bench_driver 0 0 0 0) from_dev
         {| the_sp := sp2; buffers := fun _ => [] |} (caller 0) 36
       = @sp_speak bench_xscsi_h linux_sg_h (bench_driver 0 0 0 0) m
    /\ fd (the_sp m) = 3.
Proof.
  destruct (@connected_request nat bench_xscsi_h linux_sg_h
              (bench_driver 0 0 0 0) (bench_libc 3 0 0 30527 0)
              {| sih := sih_zeroed; fd := -1; sense := bench_sense |}
              bench_name {| errno := 0; kernel := 0%nat |}
              3 {| sih := @sih_fresh linux_sg_h; fd := 3;
                   sense := bench_sense |}
              {| errno := 0; kernel := 0%nat |}
              (caller 1) (caller 0) 6 36 from_dev (fun _ => [])
              eq_refl ltac:(lia) ltac:(lia))
    as (sp2 & m & Hcdb & Htransfer & _ & Hfd & _).
  exists sp2, m. repeat split; assumption.
Defined.
